(** * MaxPool operator node of ngraph: shape validation, shape inference,
      functional identity and adjoint construction.

    Shallow embedding of [src/ngraph/ops/max_pool.cpp].  Vectors of [size_t]
    are lists of [Z] (entries range over [0, 2^64), arithmetic wraps), vector
    sizes and loop indices are [nat].  C++ exceptions are the [Throw] case of
    [result]. *)

From Stdlib Require Import ZArith String List Lia Bool.
From stdpp Require Import base numbers list strings.

Local Open Scope Z_scope.

(** ** Exceptions and the error monad *)

Inductive exn : Type :=
| ngraph_error (what : string)   (* the project's configuration error *)
| out_of_range.                  (* std::out_of_range, thrown by vector::at *)

Inductive result (A : Type) : Type :=
| Ok (a : A)
| Throw (e : exn).
Arguments Ok {A} a.
Arguments Throw {A} e.

Definition bind {A B : Type} (m : result A) (k : A -> result B) : result B :=
  match m with
  | Ok a => k a
  | Throw e => Throw e
  end.

Notation "x <- m ;; k" := (bind m (fun x => k))
  (at level 100, m at next level, right associativity).

(** [for (size_t i = from; i < from + n; i++) s = body i s] with exceptions. *)
Fixpoint for_loop_from {S : Type} (from n : nat) (body : nat -> S -> result S) (s : S)
  : result S :=
  match n with
  | O => Ok s
  | Datatypes.S n' => s' <- body from s ;; for_loop_from (Datatypes.S from) n' body s'
  end.

Definition for_loop {S : Type} (n : nat) (body : nat -> S -> result S) (s : S) : result S :=
  for_loop_from 0 n body s.

(** ** size_t and vectors *)

Definition size_t_modulus : Z := 2 ^ 64.
Definition wrap (x : Z) : Z := x mod size_t_modulus.
Definition size_t_sub (a b : Z) : Z := wrap (a - b).
Definition size_t_add (a b : Z) : Z := wrap (a + b).

(** [Shape] and [Strides] are both [std::vector<size_t>]. *)
Abbreviation Shape := (list Z) (only parsing).
Abbreviation Strides := (list Z) (only parsing).

(** Every entry is a [size_t] value. *)
Definition is_size_t (x : Z) : Prop := 0 <= x < size_t_modulus.
Definition size_t_vector (v : list Z) : Prop := Forall is_size_t v.

(** [v[i]]: unchecked subscript.  Every use below is guarded by a size check, so
    the default is never observed. *)
Definition subscript (v : list Z) (i : nat) : Z := default 0 (v !! i).

(** [v.at(i)]: checked access. *)
Definition vector_at {A : Type} (v : list A) (i : nat) : result A :=
  match v !! i with
  | Some a => Ok a
  | None => Throw out_of_range
  end.

(** [std::copy(src.begin(), src.end(), dst.begin() + pos)]. *)
Fixpoint std_copy (src : list Z) (dst : list Z) (pos : nat) : list Z :=
  match src with
  | [] => dst
  | x :: src' => std_copy src' (<[pos := x]> dst) (Datatypes.S pos)
  end.

(** Modelled from the spec: [ceil_div] of [ngraph/util.hpp], which is not part of
    this file.  The glossary defines it as integer ceiling division,
    floor((a + b - 1) / b) for positive a, b. *)
Definition ceil_div (a b : Z) : Z := (a + b - 1) / b.

(** ** Graph nodes as seen through the node base interface *)

(** Modelled from the spec: the element-type system is an external collaborator;
    an element type is identified by its C type name and only compared. *)
Definition element_type := string.

(** Modelled from the spec: an output descriptor of a node (the descriptor
    classes are not part of this file): the declared element type and shape. *)
Record Output : Type := mkOutput {
  get_element_type : element_type;
  get_shape : Shape
}.

(** Modelled from the spec: a node built elsewhere in the graph, as far as
    this file looks at it through [shared_ptr<Node>] (the [Node] class is not
    part of this file): its identity (the address the pointer holds) and its
    declared outputs, [get_outputs()]. *)
Record Node : Type := mkNode {
  node_id : nat;
  get_outputs : list Output
}.

(** The MaxPool object: the fields of the [Node] base that this file touches,
    followed by the members declared by [op::MaxPool]. *)
Record MaxPool : Type := mkMaxPool {
  description : string;
  arguments : list Node;
  value_type : option (element_type * Shape);
  m_window_shape : Shape;
  m_window_movement_strides : Strides;
  m_batch_size : Z;
  m_channel_count : Z;
  m_image_dimension_count : nat;
  m_input_image_shape : Shape;
  m_output_image_shape : Shape
}.

(** Modelled from the spec: the node base (constructors [Node] and
    [RequiresTensorViewArgs], [get_inputs]) is not part of this file.  The base
    keeps the operator kind and the argument list; a node has one input edge
    per output of each argument, in order. *)
Definition get_inputs (args : list Node) : list Output :=
  flat_map get_outputs args.

(** Modelled from the spec: [set_value_type_checked] of the node base; on
    success the node records element type and result shape as its output type. *)
Definition set_value_type_checked (et : element_type) (s : Shape) (this : MaxPool) : MaxPool :=
  {| description := description this;
     arguments := arguments this;
     value_type := Some (et, s);
     m_window_shape := m_window_shape this;
     m_window_movement_strides := m_window_movement_strides this;
     m_batch_size := m_batch_size this;
     m_channel_count := m_channel_count this;
     m_image_dimension_count := m_image_dimension_count this;
     m_input_image_shape := m_input_image_shape this;
     m_output_image_shape := m_output_image_shape this |}.

(** ** Error messages of max_pool.cpp *)

Definition msg_rank : string :=
  "Max pool image batch input must have rank of at least 3 (one batch axis, one channel axis, at least one image dimension).".
Definition msg_batch : string := "Max pool image batch size is zero.".
Definition msg_channel : string := "Max pool requires at least one image depth channel.".
Definition msg_window_rank : string :=
  "Max pool window shape rank does not match number of image dimensions.".
Definition msg_stride_rank : string :=
  "Max pool window movement stride rank does not match number of image dimensions.".
Definition msg_image_dim : string := "Max pool input image dimension is zero.".
Definition msg_window_dim : string := "Max pool window shape has a zero-length axis.".
Definition msg_window_fits : string := "Max pool window shape is larger than the image.".
Definition msg_stride : string := "Max pool window axis movement stride is zero.".
Definition msg_one_output : string :=
  "Max pool image batch argument must have exactly one output".

(** ** op::MaxPool::MaxPool(arg, window_shape, window_movement_strides) *)

Definition MaxPool_ctor (arg : Node) (window_shape : Shape) (window_movement_strides : Strides)
  : result MaxPool :=
  (* : RequiresTensorViewArgs("MaxPool", {arg}): the base constructor is not
     part of this file and what it checks of [arg] is not modelled; the
     embedding is that of the constructor's body, faithful for an argument
     with exactly one output *)
  let args := [arg] in
  (* auto& arg_shape = get_inputs().at(0).get_shape(); *)
  input0 <- vector_at (get_inputs args) 0 ;;
  let arg_shape := get_shape input0 in
  (* arg: NCDi for some Di of rank > 0, N != 0, C != 0 *)
  if (length arg_shape <? 3)%nat then Throw (ngraph_error msg_rank) else
  let batch_size := subscript arg_shape 0 in
  if batch_size =? 0 then Throw (ngraph_error msg_batch) else
  let channel_count := subscript arg_shape 1 in
  if channel_count =? 0 then Throw (ngraph_error msg_channel) else
  let image_dimension_count := (length arg_shape - 2)%nat in
  (* window shape and movement strides have the rank of Di *)
  if negb (length window_shape =? image_dimension_count)%nat
  then Throw (ngraph_error msg_window_rank) else
  if negb (length window_movement_strides =? image_dimension_count)%nat
  then Throw (ngraph_error msg_stride_rank) else
  (* extract Di, all dimensions larger than 0 *)
  input_image_shape <-
    for_loop image_dimension_count
      (fun i v =>
         let v' := v ++ [subscript arg_shape (1 + 1 + i)%nat] in
         if subscript v' i =? 0 then Throw (ngraph_error msg_image_dim) else Ok v')
      [] ;;
  (* window shape dimensions all larger than 0 *)
  _ <- for_loop image_dimension_count
      (fun i u =>
         if subscript window_shape i =? 0
         then Throw (ngraph_error msg_window_dim) else Ok u)
      tt ;;
  (* the window fits within the image dimensions *)
  _ <- for_loop image_dimension_count
      (fun i u =>
         if subscript window_shape i >? subscript input_image_shape i
         then Throw (ngraph_error msg_window_fits) else Ok u)
      tt ;;
  (* compute Do, checking that all strides are larger than 0 *)
  output_image_shape <-
    for_loop image_dimension_count
      (fun i v =>
         if subscript window_movement_strides i =? 0
         then Throw (ngraph_error msg_stride)
         else Ok (v ++ [ceil_div
                          (size_t_add (size_t_sub (subscript input_image_shape i)
                                                  (subscript window_shape i)) 1)
                          (subscript window_movement_strides i)]))
      [] ;;
  (* result shape: NCDo *)
  let result_shape := replicate (1 + 1 + image_dimension_count)%nat 0 in
  let result_shape := <[0%nat := batch_size]> result_shape in
  let result_shape := <[1%nat := channel_count]> result_shape in
  let result_shape := std_copy output_image_shape result_shape 2 in
  Ok (set_value_type_checked (get_element_type input0) result_shape
        {| description := "MaxPool";
           arguments := args;
           value_type := None;
           m_window_shape := window_shape;
           m_window_movement_strides := window_movement_strides;
           m_batch_size := batch_size;
           m_channel_count := channel_count;
           m_image_dimension_count := image_dimension_count;
           m_input_image_shape := input_image_shape;
           m_output_image_shape := output_image_shape |}).

(** ** default_strides and the two-argument constructor *)

Definition default_strides (arg : Node) : result Strides :=
  if negb (length (get_outputs arg) =? 1)%nat
  then Throw (ngraph_error msg_one_output) else
  output0 <- vector_at (get_outputs arg) 0 ;;
  let arg_shape := get_shape output0 in
  if (length arg_shape <? 3)%nat then Throw (ngraph_error msg_rank) else
  Ok (replicate (length arg_shape - 2) 1).

(** The delegating constructor evaluates [default_strides(arg)] before the
    three-argument constructor starts. *)
Definition MaxPool_ctor_default (arg : Node) (window_shape : Shape) : result MaxPool :=
  strides <- default_strides arg ;;
  MaxPool_ctor arg window_shape strides.

(** ** op::MaxPool::is_functionally_identical *)

(** Modelled from the spec: [Node::test_identical] of the node base, which is
    not part of this file: same operator kind and same identity of the inputs. *)
Definition test_identical (this other : MaxPool) : bool :=
  String.eqb (description this) (description other)
  && bool_decide (node_id <$> arguments this = node_id <$> arguments other).

(** The method is [const] and takes [const Node&]: the model is a function of
    the two objects that returns the flag only. *)
Definition is_functionally_identical (this other : MaxPool) : bool :=
  let rc := true in
  if test_identical this other then
    let rhs := other in
    let rc := rc && bool_decide (m_window_shape this = m_window_shape rhs) in
    let rc := rc && bool_decide (m_window_movement_strides this = m_window_movement_strides rhs) in
    let rc := rc && (m_channel_count this =? m_channel_count rhs) in
    let rc := rc && bool_decide (m_input_image_shape this = m_input_image_shape rhs) in
    let rc := rc && bool_decide (m_output_image_shape this = m_output_image_shape rhs) in
    let rc := rc && (m_batch_size this =? m_batch_size rhs) in
    let rc := rc && (m_image_dimension_count this =? m_image_dimension_count rhs)%nat in
    rc
  else false.

(** ** op::MaxPool::generate_adjoints *)

(** Modelled from the spec: what a [shared_ptr<Node>] in [generate_adjoints]
    points to: a node that exists already (the operand, the delta) or one of
    the nodes the function builds.  The classes [op::Parameter],
    [op::Constant], [op::Greater], [op::Add], [op::SelectAndScatter] and
    [Function] are not part of this file; section 6 of the specification lists
    their constructors, and a built object is the record of the arguments its
    constructor received together with the identity [make_shared] gave it. *)
Inductive node_ref : Type :=
| Existing (n : Node)
| op_Parameter (id : nat) (et : element_type) (shape : Shape)
| op_Constant (id : nat) (et : element_type) (shape : Shape) (values : list string)
| op_Greater (id : nat) (arg0 arg1 : node_ref)
| op_Add (id : nat) (arg0 arg1 : node_ref)
| op_SelectAndScatter (id : nat) (arg_selectee arg_source arg_init : node_ref)
    (selection_function scatter_function : Function_)
    (window_shape : Shape) (window_movement_strides : Strides)
with Function_ : Type :=
| mkFunction (id : nat) (result : node_ref) (parameters : list node_ref).

(** Modelled from the spec: [autodiff::Adjoints] is not part of this file.
    [add_delta(target, contribution)] accumulates contributions per target; the
    accumulator is the sequence of registered pairs, oldest first. *)
Definition Adjoints := list (node_ref * node_ref).

Record State : Type := mkState {
  fresh : nat;            (* next unused object identity *)
  adjoints : Adjoints     (* the accumulator passed by reference *)
}.

(** State and exceptions. *)
Definition M (A : Type) : Type := State -> result (A * State).

Definition ret {A : Type} (a : A) : M A := fun s => Ok (a, s).

Definition bindM {A B : Type} (m : M A) (k : A -> M B) : M B :=
  fun s => match m s with
           | Ok (a, s') => k a s'
           | Throw e => Throw e
           end.

Definition lift {A : Type} (r : result A) : M A :=
  fun s => match r with
           | Ok a => Ok (a, s)
           | Throw e => Throw e
           end.

Notation "x <~ m ;; k" := (bindM m (fun x => k))
  (at level 100, m at next level, right associativity).

(** [make_shared<T>(...)]: a new object with a new identity. *)
Definition make_shared {A : Type} (build : nat -> A) : M A :=
  fun s => Ok (build (fresh s), mkState (Datatypes.S (fresh s)) (adjoints s)).

Definition add_delta (x delta : node_ref) : M unit :=
  fun s => Ok (tt, mkState (fresh s) (adjoints s ++ [(x, delta)])).

(** Modelled from the spec: [Node::get_element_type] of the node base: the
    element type of the node's declared output. *)
Definition node_element_type (n : Node) : result element_type :=
  o <- vector_at (get_outputs n) 0 ;; Ok (get_element_type o).

(** Modelled from the spec: [Node::get_input_op] of the node base: the node
    the given input was built from. *)
Definition get_input_op (this : MaxPool) (i : nat) : result node_ref :=
  n <- vector_at (arguments this) i ;; Ok (Existing n).

Definition generate_adjoints (this : MaxPool) (delta : Node) : M unit :=
  let shape_sel_a : Shape := [] in
  etype <~ lift (node_element_type delta) ;;
  SEL_A <~ make_shared (fun id => op_Parameter id etype shape_sel_a) ;;
  let shape_sel_b : Shape := [] in
  SEL_B <~ make_shared (fun id => op_Parameter id etype shape_sel_b) ;;
  greater <~ make_shared (fun id => op_Greater id SEL_A SEL_B) ;;
  sel_f <~ make_shared (fun id => mkFunction id greater [SEL_A; SEL_B]) ;;
  let shape_scatter_a : Shape := [] in
  SCATTER_A <~ make_shared (fun id => op_Parameter id etype shape_scatter_a) ;;
  let shape_scatter_b : Shape := [] in
  SCATTER_B <~ make_shared (fun id => op_Parameter id etype shape_scatter_b) ;;
  sum <~ make_shared (fun id => op_Add id SCATTER_A SCATTER_B) ;;
  scatter_f <~ make_shared (fun id => mkFunction id sum [SCATTER_A; SCATTER_B]) ;;
  operand <~ lift (get_input_op this 0) ;;
  init_value <~ make_shared (fun id => op_Constant id etype [] ["0"%string]) ;;
  let strides : Strides := [1; 1] in
  s0 <~ lift (vector_at (m_window_movement_strides this) 0) ;;
  let strides := strides ++ [s0] in
  s1 <~ lift (vector_at (m_window_movement_strides this) 1) ;;
  let strides := strides ++ [s1] in
  let shape : Shape := [1; 1] in
  w0 <~ lift (vector_at (m_window_shape this) 0) ;;
  let shape := shape ++ [w0] in
  w1 <~ lift (vector_at (m_window_shape this) 1) ;;
  let shape := shape ++ [w1] in
  sas <~ make_shared (fun id =>
           op_SelectAndScatter id operand (Existing delta) init_value sel_f scatter_f
                            shape strides) ;;
  add_delta operand sas.

(** ** The structural invariants, as the specification lists them *)

Inductive invariant : Type :=
| Inv_rank | Inv_batch | Inv_channel | Inv_window_rank | Inv_stride_rank
| Inv_image_dim | Inv_window_dim | Inv_window_fits | Inv_stride.

Definition message (inv : invariant) : string :=
  match inv with
  | Inv_rank => msg_rank
  | Inv_batch => msg_batch
  | Inv_channel => msg_channel
  | Inv_window_rank => msg_window_rank
  | Inv_stride_rank => msg_stride_rank
  | Inv_image_dim => msg_image_dim
  | Inv_window_dim => msg_window_dim
  | Inv_window_fits => msg_window_fits
  | Inv_stride => msg_stride
  end.

(** The order of section 4.1 of the specification. *)
Definition validation_order : list invariant :=
  [Inv_rank; Inv_batch; Inv_channel; Inv_window_rank; Inv_stride_rank;
   Inv_image_dim; Inv_window_dim; Inv_window_fits; Inv_stride].

(** The spatial axes of an input shape: everything after batch and channel. *)
Definition image_dims (arg_shape : Shape) : Shape := drop 2 arg_shape.

(** The number of spatial axes of the input a node offers to MaxPool. *)
Definition spatial_axis_count (arg : Node) : nat :=
  match get_inputs [arg] !! 0%nat with
  | Some input0 => length (image_dims (get_shape input0))
  | None => 0%nat
  end.

(** [violated arg_shape window_shape strides inv]: the invariant fails, in the
    specification's words (rank below 3, zero batch size, zero channel count,
    rank mismatch of window shape or strides against the number of spatial
    axes, a zero spatial dimension, a zero window dimension, a window dimension
    above the corresponding input dimension, a zero stride). *)
Definition violated (arg_shape window_shape : Shape) (strides : Strides) (inv : invariant)
  : bool :=
  match inv with
  | Inv_rank => (length arg_shape <? 3)%nat
  | Inv_batch => bool_decide (arg_shape !! 0%nat = Some 0)
  | Inv_channel => bool_decide (arg_shape !! 1%nat = Some 0)
  | Inv_window_rank => negb (length window_shape =? length (image_dims arg_shape))%nat
  | Inv_stride_rank => negb (length strides =? length (image_dims arg_shape))%nat
  | Inv_image_dim => existsb (fun d => d =? 0) (image_dims arg_shape)
  | Inv_window_dim => existsb (fun w => w =? 0) window_shape
  | Inv_window_fits =>
      existsb (fun wd => fst wd >? snd wd) (zip window_shape (image_dims arg_shape))
  | Inv_stride => existsb (fun s => s =? 0) strides
  end.

(** Output spatial dimensions in closed form. *)
Definition output_dims (dims window_shape : Shape) (strides : Strides) : Shape :=
  zip_with (fun d ws => ceil_div (d - fst ws + 1) (snd ws)) dims (zip window_shape strides).

(** Output spatial dimensions as the loop computes them, in [size_t]. *)
Definition output_image_shape_of (dims window_shape : Shape) (strides : Strides) : Shape :=
  zip_with (fun d ws => ceil_div (size_t_add (size_t_sub d (fst ws)) 1) (snd ws))
           dims (zip window_shape strides).

(** The object a successful construction leaves behind. *)
Definition constructed (arg : Node) (input0 : Output) (window_shape : Shape) (strides : Strides)
  : MaxPool :=
  let arg_shape := get_shape input0 in
  let out := output_image_shape_of (image_dims arg_shape) window_shape strides in
  {| description := "MaxPool";
     arguments := [arg];
     value_type :=
       Some (get_element_type input0, subscript arg_shape 0 :: subscript arg_shape 1 :: out);
     m_window_shape := window_shape;
     m_window_movement_strides := strides;
     m_batch_size := subscript arg_shape 0;
     m_channel_count := subscript arg_shape 1;
     m_image_dimension_count := (length arg_shape - 2)%nat;
     m_input_image_shape := image_dims arg_shape;
     m_output_image_shape := out |}.

(** The preconditions of a successful construction, as section 3 of the
    specification lists them. *)
Record valid_parameters (arg_shape window_shape : Shape) (strides : Strides) : Prop :=
  mkValid {
    valid_rank : (3 <= length arg_shape)%nat;
    valid_input : Forall (fun x => 0 < x) arg_shape;
    valid_window : Forall (fun w => 0 < w) window_shape;
    valid_strides : Forall (fun s => 0 < s) strides;
    valid_window_rank : length window_shape = (length arg_shape - 2)%nat;
    valid_stride_rank : length strides = (length arg_shape - 2)%nat;
    valid_fits : Forall2 (fun w d => w <= d) window_shape (image_dims arg_shape)
  }.

(** Every node's declared shapes hold [size_t] values. *)
Definition size_t_node (n : Node) : Prop :=
  Forall (fun o => size_t_vector (get_shape o)) (get_outputs n).

(** Steps 1 to 6 of section 4.3 of the specification: the select-and-scatter
    node over operand and delta, for objects allocated from identity [n] on. *)
Definition adjoint_node (n : nat) (et : element_type) (operand delta : Node)
    (w0 w1 s0 s1 : Z) : node_ref :=
  let SEL_A := op_Parameter n et [] in
  let SEL_B := op_Parameter (1 + n) et [] in
  let sel_f := mkFunction (3 + n) (op_Greater (2 + n) SEL_A SEL_B) [SEL_A; SEL_B] in
  let SCATTER_A := op_Parameter (4 + n) et [] in
  let SCATTER_B := op_Parameter (5 + n) et [] in
  let scatter_f :=
    mkFunction (7 + n) (op_Add (6 + n) SCATTER_A SCATTER_B) [SCATTER_A; SCATTER_B] in
  op_SelectAndScatter (9 + n) (Existing operand) (Existing delta)
    (op_Constant (8 + n) et [] ["0"%string]) sel_f scatter_f
    [1; 1; w0; w1] [1; 1; s0; s1].

Ltac solve_size_t :=
  repeat constructor; unfold is_size_t, size_t_modulus; lia.

(** * The examples of the specification, evaluated *)

Example ctor_4x4 :
  MaxPool_ctor (mkNode 0 [mkOutput "float" [1; 1; 4; 4]]) [2; 2] [2; 2]
  = Ok (constructed (mkNode 0 [mkOutput "float" [1; 1; 4; 4]])
                    (mkOutput "float" [1; 1; 4; 4]) [2; 2] [2; 2])
  /\ value_type (constructed (mkNode 0 [mkOutput "float" [1; 1; 4; 4]])
                            (mkOutput "float" [1; 1; 4; 4]) [2; 2] [2; 2])
     = Some ("float"%string, [1; 1; 2; 2]).
Proof. split; reflexivity. Qed.

Example ctor_window_too_large :
  MaxPool_ctor (mkNode 0 [mkOutput "float" [1; 1; 4]]) [5] [1]
  = Throw (ngraph_error msg_window_fits).
Proof. reflexivity. Qed.

Example ctor_zero_image_dim_before_zero_window :
  MaxPool_ctor (mkNode 0 [mkOutput "float" [1; 1; 4; 0]]) [0; 2] [1; 0]
  = Throw (ngraph_error msg_image_dim).
Proof. reflexivity. Qed.

Example ctor_default_rank_2 :
  MaxPool_ctor_default (mkNode 0 [mkOutput "float" [4; 4]]) [2]
  = Throw (ngraph_error msg_rank).
Proof. reflexivity. Qed.

(** * Loops *)

Section Loops.
Context {A : Type}.

Lemma existsb_seq_shift (f : nat -> bool) (from n : nat) :
  existsb f (seq (Datatypes.S from) n) = existsb (fun i => f (Datatypes.S i)) (seq from n).
Proof.
  revert from. induction n as [|n IH]; intros from; simpl; [reflexivity|].
  now rewrite IH.
Qed.

(** A test on indices [0 .. length l) that reads position [i] of [l] is a
    test on the elements of [l]. *)
Lemma existsb_seq_lookup (l : list A) (f : nat -> bool) (g : A -> bool) :
  (forall i x, l !! i = Some x -> f i = g x) ->
  existsb f (seq 0 (length l)) = existsb g l.
Proof.
  revert f. induction l as [|x l IH]; intros f Hf; simpl; [reflexivity|].
  rewrite (Hf 0%nat x eq_refl). f_equal.
  rewrite existsb_seq_shift. apply IH. intros i y Hi. apply (Hf (Datatypes.S i)). exact Hi.
Qed.

Lemma map_seq_shift {B : Type} (f : nat -> B) (from n : nat) :
  map f (seq (Datatypes.S from) n) = map (fun i => f (Datatypes.S i)) (seq from n).
Proof.
  revert from. induction n as [|n IH]; intros from; simpl; [reflexivity|].
  now rewrite IH.
Qed.

Lemma map_seq_lookup {B : Type} (l : list A) (f : nat -> B) (g : A -> B) :
  (forall i x, l !! i = Some x -> f i = g x) ->
  map f (seq 0 (length l)) = map g l.
Proof.
  revert f. induction l as [|x l IH]; intros f Hf; simpl; [reflexivity|].
  rewrite (Hf 0%nat x eq_refl). f_equal.
  rewrite map_seq_shift. apply IH. intros i y Hi. apply (Hf (Datatypes.S i)). exact Hi.
Qed.
End Loops.

(** A loop that only checks: it throws at the first bad index. *)
Lemma for_loop_check (bad : nat -> bool) (e : exn) (from n : nat) :
  for_loop_from from n (fun i (u : unit) => if bad i then Throw e else Ok u) tt
  = if existsb bad (seq from n) then Throw e else Ok tt.
Proof.
  revert from. induction n as [|n IH]; intros from; simpl; [reflexivity|].
  destruct (bad from); simpl; [reflexivity|]. apply IH.
Qed.

(** A loop that checks and then appends one element per iteration. *)
Lemma for_loop_push (bad : nat -> bool) (g : nat -> Z) (e : exn) (from n : nat) (v : list Z) :
  for_loop_from from n (fun i v => if bad i then Throw e else Ok (v ++ [g i])) v
  = if existsb bad (seq from n) then Throw e else Ok (v ++ map g (seq from n)).
Proof.
  revert from v. induction n as [|n IH]; intros from v; simpl.
  - now rewrite app_nil_r.
  - destruct (bad from); simpl; [reflexivity|].
    rewrite IH. destruct (existsb bad (seq (Datatypes.S from) n)); [reflexivity|].
    now rewrite <- app_assoc.
Qed.

Lemma subscript_lookup (v : list Z) (i : nat) (x : Z) :
  v !! i = Some x -> subscript v i = x.
Proof. unfold subscript. now intros ->. Qed.

(** The loop that extracts the image dimensions, started at axis [from] with
    the axes before it already extracted. *)
Lemma for_loop_extract (n0 c : Z) (dims : list Z) (e : exn) (n from : nat) :
  (from + n <= length dims)%nat ->
  for_loop_from from n
    (fun i v =>
       let v' := v ++ [subscript (n0 :: c :: dims) (1 + 1 + i)%nat] in
       if subscript v' i =? 0 then Throw e else Ok v')
    (take from dims)
  = if existsb (fun d => d =? 0) (take n (drop from dims))
    then Throw e else Ok (take (from + n) dims).
Proof.
  revert from. induction n as [|n IH]; intros from Hle; simpl.
  - now rewrite Nat.add_0_r.
  - destruct (lookup_lt_is_Some_2 dims from ltac:(lia)) as [x Hx].
    assert (Hs : subscript (n0 :: c :: dims) (Datatypes.S (Datatypes.S from)) = x)
      by (apply subscript_lookup; exact Hx).
    rewrite Hs.
    assert (Ht : take from dims ++ [x] = take (Datatypes.S from) dims)
      by (symmetry; now apply take_S_r).
    assert (Hv : subscript (take from dims ++ [x]) from = x).
    { apply subscript_lookup. rewrite Ht. rewrite lookup_take_lt by lia. exact Hx. }
    rewrite Hv.
    rewrite (drop_S dims x from Hx). simpl.
    destruct (x =? 0); simpl; [reflexivity|].
    rewrite Ht, IH by lia.
    now replace (from + Datatypes.S n)%nat with (Datatypes.S from + n)%nat by lia.
Qed.

(** [std::copy] into a buffer that has room: the first [length pre] slots are
    kept, the following slots receive the source. *)
Lemma std_copy_app (src pre junk : list Z) :
  length junk = length src ->
  std_copy src (pre ++ junk) (length pre) = pre ++ src.
Proof.
  revert pre junk. induction src as [|x src IH]; intros pre junk Hlen; simpl.
  - destruct junk; [reflexivity|discriminate].
  - destruct junk as [|j junk]; [discriminate|].
    rewrite insert_app_r_alt by lia. rewrite Nat.sub_diag. simpl.
    replace (pre ++ x :: junk) with ((pre ++ [x]) ++ junk) by (now rewrite <- app_assoc).
    replace (Datatypes.S (length pre)) with (length (pre ++ [x]))
      by (rewrite length_app; simpl; lia).
    rewrite IH by (simpl in Hlen; lia). now rewrite <- app_assoc.
Qed.

(** * The four validation loops of the constructor *)

Lemma loop_image_dims (n0 c : Z) (dims : list Z) (e : exn) :
  for_loop (length dims)
    (fun i v =>
       let v' := v ++ [subscript (n0 :: c :: dims) (1 + 1 + i)%nat] in
       if subscript v' i =? 0 then Throw e else Ok v')
    []
  = if existsb (fun d => d =? 0) dims then Throw e else Ok dims.
Proof.
  unfold for_loop.
  pose proof (for_loop_extract n0 c dims e (length dims) 0 ltac:(lia)) as H.
  rewrite take_0, drop_0 in H. simpl in H.
  rewrite take_ge in H by lia. exact H.
Qed.

Lemma loop_window_dims (window_shape : Shape) (e : exn) (n : nat) :
  length window_shape = n ->
  for_loop n (fun i (u : unit) => if subscript window_shape i =? 0 then Throw e else Ok u) tt
  = if existsb (fun w => w =? 0) window_shape then Throw e else Ok tt.
Proof.
  intros <-. unfold for_loop.
  rewrite (for_loop_check (fun i => subscript window_shape i =? 0)).
  rewrite (existsb_seq_lookup window_shape _ (fun w => w =? 0)); [reflexivity|].
  intros i x Hx. now rewrite (subscript_lookup _ _ _ Hx).
Qed.

Lemma loop_window_fits (window_shape dims : Shape) (e : exn) :
  length window_shape = length dims ->
  for_loop (length dims)
    (fun i (u : unit) =>
       if subscript window_shape i >? subscript dims i then Throw e else Ok u) tt
  = if existsb (fun wd => fst wd >? snd wd) (zip window_shape dims)
    then Throw e else Ok tt.
Proof.
  intros Hlen. unfold for_loop.
  rewrite (for_loop_check (fun i => subscript window_shape i >? subscript dims i)).
  replace (length dims) with (length (zip window_shape dims))
    by (rewrite length_zip_with_l_eq; lia).
  rewrite (existsb_seq_lookup (zip window_shape dims) _ (fun wd => fst wd >? snd wd));
    [reflexivity|].
  intros i [w d] Hx.
  apply lookup_zip_with_Some in Hx as (w' & d' & Heq & Hw & Hd).
  inversion Heq; subst. simpl.
  now rewrite (subscript_lookup _ _ _ Hw), (subscript_lookup _ _ _ Hd).
Qed.

Lemma loop_output_dims (dims window_shape : Shape) (strides : Strides) (e : exn) :
  length window_shape = length dims ->
  length strides = length dims ->
  for_loop (length dims)
    (fun i v =>
       if subscript strides i =? 0
       then Throw e
       else Ok (v ++ [ceil_div
                        (size_t_add (size_t_sub (subscript dims i)
                                                (subscript window_shape i)) 1)
                        (subscript strides i)]))
    []
  = if existsb (fun s => s =? 0) strides
    then Throw e else Ok (output_image_shape_of dims window_shape strides).
Proof.
  intros Hw Hs. unfold for_loop.
  rewrite (for_loop_push (fun i => subscript strides i =? 0)
             (fun i => ceil_div
                         (size_t_add (size_t_sub (subscript dims i)
                                                 (subscript window_shape i)) 1)
                         (subscript strides i))).
  replace (existsb (fun i => subscript strides i =? 0) (seq 0 (length dims)))
    with (existsb (fun s => s =? 0) strides).
  2:{ rewrite <- Hs. symmetry. apply existsb_seq_lookup.
      intros i x Hx. now rewrite (subscript_lookup _ _ _ Hx). }
  destruct (existsb (fun s => s =? 0) strides); [reflexivity|].
  f_equal. simpl. unfold output_image_shape_of. rewrite zip_with_zip.
  replace (length dims) with (length (zip dims (zip window_shape strides)))
    by (rewrite length_zip_with_l_eq; [lia|rewrite length_zip_with_l_eq; lia]).
  apply map_seq_lookup.
  intros i [d [w s]] Hx.
  apply lookup_zip_with_Some in Hx as (d' & ws' & Heq & Hd & Hws).
  inversion Heq; subst.
  apply lookup_zip_with_Some in Hws as (w' & s' & Heq' & Hw' & Hs').
  inversion Heq'; subst. simpl.
  now rewrite (subscript_lookup _ _ _ Hd), (subscript_lookup _ _ _ Hw'),
    (subscript_lookup _ _ _ Hs').
Qed.

Lemma result_shape_copy (n0 c : Z) (out : list Z) (k : nat) :
  length out = k ->
  std_copy out (<[1%nat := c]> (<[0%nat := n0]> (replicate (1 + 1 + k)%nat 0))) 2
  = n0 :: c :: out.
Proof.
  intros Hk. simpl.
  apply (std_copy_app out [n0; c] (replicate k 0)).
  rewrite length_replicate. lia.
Qed.

Lemma length_output_image_shape_of (dims window_shape : Shape) (strides : Strides) :
  length window_shape = length dims ->
  length strides = length dims ->
  length (output_image_shape_of dims window_shape strides) = length dims.
Proof.
  intros Hw Hs. unfold output_image_shape_of.
  rewrite length_zip_with_l_eq; [reflexivity|].
  rewrite length_zip_with_l_eq; lia.
Qed.

Lemma bool_decide_Some_zero (x : Z) : bool_decide (Some x = Some 0) = (x =? 0).
Proof.
  destruct (Z.eqb_spec x 0) as [->|Hne].
  - now apply bool_decide_eq_true.
  - apply bool_decide_eq_false. congruence.
Qed.

(** * The constructor, characterised *)

(** The constructor throws the message of the first violated invariant in
    [validation_order], and builds [constructed] when there is none. *)
Lemma MaxPool_ctor_find (arg : Node) (input0 : Output) (window_shape : Shape) (strides : Strides) :
  get_inputs [arg] !! 0%nat = Some input0 ->
  MaxPool_ctor arg window_shape strides =
    match List.find (violated (get_shape input0) window_shape strides) validation_order with
    | Some inv => Throw (ngraph_error (message inv))
    | None => Ok (constructed arg input0 window_shape strides)
    end.
Proof.
  intros Hin. unfold MaxPool_ctor, vector_at. rewrite Hin. cbn [bind].
  destruct input0 as [et arg_shape]. cbn [get_shape get_element_type].
  destruct arg_shape as [|n0 [|c [|d dims]]]; try reflexivity.
  set (dims' := d :: dims).
  change (length (n0 :: c :: dims') <? 3)%nat with false. cbv iota.
  change (subscript (n0 :: c :: dims') 0) with n0.
  change (subscript (n0 :: c :: dims') 1) with c.
  change (length (n0 :: c :: dims') - 2)%nat with (length dims').
  unfold validation_order, List.find.
  change (violated (n0 :: c :: dims') window_shape strides Inv_rank) with false.
  cbv iota.
  change (violated (n0 :: c :: dims') window_shape strides Inv_batch)
    with (bool_decide (Some n0 = Some 0)).
  change (violated (n0 :: c :: dims') window_shape strides Inv_channel)
    with (bool_decide (Some c = Some 0)).
  rewrite !bool_decide_Some_zero.
  destruct (n0 =? 0); [reflexivity|].
  destruct (c =? 0); [reflexivity|].
  change (violated (n0 :: c :: dims') window_shape strides Inv_window_rank)
    with (negb (length window_shape =? length dims')%nat).
  change (violated (n0 :: c :: dims') window_shape strides Inv_stride_rank)
    with (negb (length strides =? length dims')%nat).
  destruct (Nat.eqb_spec (length window_shape) (length dims')) as [Hw|Hw];
    [|reflexivity].
  destruct (Nat.eqb_spec (length strides) (length dims')) as [Hs|Hs];
    [|reflexivity].
  cbn [negb].
  change (violated (n0 :: c :: dims') window_shape strides Inv_image_dim)
    with (existsb (fun d => d =? 0) dims').
  change (violated (n0 :: c :: dims') window_shape strides Inv_window_dim)
    with (existsb (fun w => w =? 0) window_shape).
  change (violated (n0 :: c :: dims') window_shape strides Inv_window_fits)
    with (existsb (fun wd => fst wd >? snd wd) (zip window_shape dims')).
  change (violated (n0 :: c :: dims') window_shape strides Inv_stride)
    with (existsb (fun s => s =? 0) strides).
  rewrite loop_image_dims.
  destruct (existsb (fun d => d =? 0) dims'); [reflexivity|]. cbn [bind].
  rewrite (loop_window_dims window_shape _ (length dims') Hw).
  destruct (existsb (fun w => w =? 0) window_shape); [reflexivity|]. cbn [bind].
  rewrite (loop_window_fits window_shape dims' _ Hw).
  destruct (existsb (fun wd => fst wd >? snd wd) (zip window_shape dims'));
    [reflexivity|]. cbn [bind].
  rewrite (loop_output_dims dims' window_shape strides _ Hw Hs).
  destruct (existsb (fun s => s =? 0) strides); [reflexivity|]. cbn [bind].
  rewrite result_shape_copy
    by (now apply length_output_image_shape_of).
  reflexivity.
Qed.

(** * Valid parameters and violated invariants *)

Lemma existsb_zero_false (l : list Z) :
  existsb (fun x => x =? 0) l = false <-> Forall (fun x => x <> 0) l.
Proof.
  induction l as [|x l IH]; simpl.
  - split; [constructor|reflexivity].
  - rewrite orb_false_iff, IH, Forall_cons, Z.eqb_neq. reflexivity.
Qed.

Lemma existsb_fits_false (ws ds : list Z) :
  length ws = length ds ->
  existsb (fun wd => fst wd >? snd wd) (zip ws ds) = false <-> Forall2 (fun w d => w <= d) ws ds.
Proof.
  revert ds. induction ws as [|w ws IH]; intros [|d ds] Hlen; simpl in *; try discriminate.
  - split; [constructor|reflexivity].
  - rewrite orb_false_iff, IH by lia. rewrite Forall2_cons.
    rewrite Z.gtb_ltb, Z.ltb_ge. reflexivity.
Qed.

Lemma Forall_pos_nonzero (l : list Z) :
  Forall (fun x => 0 < x) l -> Forall (fun x => x <> 0) l.
Proof. intros H. eapply Forall_impl; [exact H|]. intros x Hx. simpl in Hx. lia. Qed.

(** Nothing is violated exactly when the shape has the form [b :: c :: dims]
    with the properties the checks establish. *)
Lemma no_violation_iff (arg_shape window_shape : Shape) (strides : Strides) :
  (forall inv, violated arg_shape window_shape strides inv = false) <->
  exists b c dims,
    arg_shape = b :: c :: dims /\ dims <> [] /\ b <> 0 /\ c <> 0 /\
    length window_shape = length dims /\ length strides = length dims /\
    Forall (fun x => x <> 0) dims /\ Forall (fun x => x <> 0) window_shape /\
    Forall2 (fun w d => w <= d) window_shape dims /\
    Forall (fun x => x <> 0) strides.
Proof.
  split.
  - intros H.
    pose proof (H Inv_rank) as Hrank. pose proof (H Inv_batch) as Hb.
    pose proof (H Inv_channel) as Hc. pose proof (H Inv_window_rank) as Hwr.
    pose proof (H Inv_stride_rank) as Hsr. pose proof (H Inv_image_dim) as Hd.
    pose proof (H Inv_window_dim) as Hw. pose proof (H Inv_window_fits) as Hf.
    pose proof (H Inv_stride) as Hs.
    destruct arg_shape as [|b [|c [|d dims]]]; try discriminate Hrank.
    cbn [violated image_dims drop] in *.
    change ((b :: c :: d :: dims) !! 0%nat) with (Some b) in Hb.
    change ((b :: c :: d :: dims) !! 1%nat) with (Some c) in Hc.
    rewrite bool_decide_Some_zero in Hb, Hc.
    apply negb_false_iff, Nat.eqb_eq in Hwr. apply negb_false_iff, Nat.eqb_eq in Hsr.
    exists b, c, (d :: dims). repeat split; try assumption.
    + discriminate.
    + now apply Z.eqb_neq.
    + now apply Z.eqb_neq.
    + now apply existsb_zero_false.
    + now apply existsb_zero_false.
    + now apply existsb_fits_false.
    + now apply existsb_zero_false.
  - intros (b & c & dims & -> & Hne & Hb & Hc & Hwr & Hsr & Hd & Hw & Hf & Hs) inv.
    destruct dims as [|d dims]; [congruence|].
    destruct inv; cbn [violated image_dims drop].
    + reflexivity.
    + change ((b :: c :: d :: dims) !! 0%nat) with (Some b).
      rewrite bool_decide_Some_zero. now apply Z.eqb_neq.
    + change ((b :: c :: d :: dims) !! 1%nat) with (Some c).
      rewrite bool_decide_Some_zero. now apply Z.eqb_neq.
    + apply negb_false_iff, Nat.eqb_eq. exact Hwr.
    + apply negb_false_iff, Nat.eqb_eq. exact Hsr.
    + now apply existsb_zero_false.
    + now apply existsb_zero_false.
    + now apply existsb_fits_false.
    + now apply existsb_zero_false.
Qed.

Lemma valid_no_violation (arg_shape window_shape : Shape) (strides : Strides) :
  valid_parameters arg_shape window_shape strides ->
  forall inv, violated arg_shape window_shape strides inv = false.
Proof.
  intros [Hrank Hin Hw Hs Hwr Hsr Hf]. apply no_violation_iff.
  destruct arg_shape as [|b [|c dims]]; simpl in Hrank; try lia.
  unfold image_dims in Hf. simpl in *.
  apply Forall_cons in Hin as [Hb Hin]. apply Forall_cons in Hin as [Hc Hin].
  exists b, c, dims. repeat split; try lia.
  - destruct dims; [simpl in Hrank; lia|discriminate].
  - now apply Forall_pos_nonzero.
  - now apply Forall_pos_nonzero.
  - exact Hf.
  - now apply Forall_pos_nonzero.
Qed.

Lemma validation_order_complete (inv : invariant) : In inv validation_order.
Proof. destruct inv; simpl; tauto. Qed.

Lemma find_violated_None (arg_shape window_shape : Shape) (strides : Strides) :
  List.find (violated arg_shape window_shape strides) validation_order = None <->
  forall inv, violated arg_shape window_shape strides inv = false.
Proof.
  split.
  - intros H inv. apply (List.find_none _ _ H). apply validation_order_complete.
  - intros H. unfold validation_order, List.find. now rewrite !H.
Qed.

(** The first violated invariant of a list is the one [find] returns. *)
Lemma find_first {X : Type} (f : X -> bool) (pre post : list X) (x : X) :
  Forall (fun y => f y = false) pre -> f x = true ->
  List.find f (pre ++ x :: post) = Some x.
Proof.
  induction 1 as [|y pre Hy _ IH]; intros Hx; simpl.
  - now rewrite Hx.
  - rewrite Hy. now apply IH.
Qed.

(** Without wrap-around the loop computes the closed form: the window fits
    and is positive, so [d - w + 1] stays within [1, d]. *)
Lemma output_image_shape_of_exact (dims window_shape : Shape) (strides : Strides) :
  size_t_vector dims ->
  Forall (fun w => 0 < w) window_shape ->
  Forall2 (fun w d => w <= d) window_shape dims ->
  output_image_shape_of dims window_shape strides = output_dims dims window_shape strides.
Proof.
  intros Hd Hw Hf. revert strides Hd Hw.
  induction Hf as [|w d ws ds Hwd Hf IH]; intros strides Hd Hw; [reflexivity|].
  apply Forall_cons in Hd as [Hd Hds]. apply Forall_cons in Hw as [Hw Hws].
  destruct strides as [|s strides]; [reflexivity|].
  unfold output_image_shape_of, output_dims in *. simpl. f_equal.
  - unfold size_t_add, size_t_sub, wrap, is_size_t in *.
    rewrite (Z.mod_small (d - w)) by lia. rewrite Z.mod_small by lia. reflexivity.
  - apply IH; assumption.
Qed.

Lemma lookup_output_dims (dims window_shape : Shape) (strides : Strides) (i : nat) (d w s : Z) :
  dims !! i = Some d -> window_shape !! i = Some w -> strides !! i = Some s ->
  output_dims dims window_shape strides !! i = Some (ceil_div (d - w + 1) s).
Proof.
  intros Hd Hw Hs. unfold output_dims.
  apply lookup_zip_with_Some. exists d, (w, s). repeat split; [exact Hd|].
  apply lookup_zip_with_Some. exists w, s. now repeat split.
Qed.

Lemma ceil_div_ge_1 (a b : Z) : 1 <= a -> 1 <= b -> 1 <= ceil_div a b.
Proof.
  intros Ha Hb. unfold ceil_div.
  apply Z.div_le_lower_bound; lia.
Qed.

(** A valid construction succeeds and leaves [constructed] behind. *)
Lemma MaxPool_ctor_valid (arg : Node) (input0 : Output) (window_shape : Shape) (strides : Strides) :
  get_inputs [arg] !! 0%nat = Some input0 ->
  valid_parameters (get_shape input0) window_shape strides ->
  MaxPool_ctor arg window_shape strides = Ok (constructed arg input0 window_shape strides).
Proof.
  intros Hin Hvalid. rewrite (MaxPool_ctor_find arg input0) by exact Hin.
  pose proof (valid_no_violation _ _ _ Hvalid) as Hnone.
  apply find_violated_None in Hnone. now rewrite Hnone.
Qed.

(** A successful construction had an input and no violated invariant. *)
Lemma MaxPool_ctor_Ok_inv (arg : Node) (window_shape : Shape) (strides : Strides) (mp : MaxPool) :
  MaxPool_ctor arg window_shape strides = Ok mp ->
  exists input0,
    get_inputs [arg] !! 0%nat = Some input0 /\
    mp = constructed arg input0 window_shape strides /\
    forall inv, violated (get_shape input0) window_shape strides inv = false.
Proof.
  intros Hok.
  destruct (get_inputs [arg] !! 0%nat) as [input0|] eqn:Hin.
  - rewrite (MaxPool_ctor_find arg input0) in Hok by exact Hin.
    destruct (List.find _ validation_order) eqn:Hfind; [discriminate|].
    exists input0. repeat split; [congruence|]. now apply find_violated_None.
  - unfold MaxPool_ctor, vector_at in Hok. rewrite Hin in Hok. discriminate.
Qed.

(** * Shape inference *)

(** C1: a construction from an input of rank at least 3 whose entries, window
    dimensions and strides are all positive, with window and stride ranks equal
    to the number of spatial axes and every window dimension at most the input
    dimension, succeeds; the recorded output shape is batch size and channel
    count followed, per spatial axis [i], by
    [ceil_div (input_dim[i] - window_dim[i] + 1) stride[i]]; its rank is the
    input rank.  Input [1,1,4,4] with window [2,2] and strides [2,2] gives
    [1,1,2,2]. *)
Theorem MaxPool_ctor_output_shape :
  (forall (arg : Node) (et : element_type) (arg_shape window_shape : Shape) (strides : Strides),
      get_inputs [arg] !! 0%nat = Some (mkOutput et arg_shape) ->
      size_t_vector arg_shape ->
      (3 <= length arg_shape)%nat ->
      Forall (fun x => 0 < x) arg_shape ->
      Forall (fun w => 0 < w) window_shape ->
      Forall (fun s => 0 < s) strides ->
      length window_shape = (length arg_shape - 2)%nat ->
      length strides = (length arg_shape - 2)%nat ->
      Forall2 (fun w d => w <= d) window_shape (image_dims arg_shape) ->
      exists mp batch_size channel_count,
        MaxPool_ctor arg window_shape strides = Ok mp /\
        arg_shape !! 0%nat = Some batch_size /\
        arg_shape !! 1%nat = Some channel_count /\
        value_type mp =
          Some (et, [batch_size; channel_count]
                      ++ output_dims (image_dims arg_shape) window_shape strides) /\
        m_output_image_shape mp = output_dims (image_dims arg_shape) window_shape strides /\
        (forall i d w s,
            image_dims arg_shape !! i = Some d ->
            window_shape !! i = Some w ->
            strides !! i = Some s ->
            output_dims (image_dims arg_shape) window_shape strides !! i
            = Some (ceil_div (d - w + 1) s)) /\
        length ([batch_size; channel_count]
                  ++ output_dims (image_dims arg_shape) window_shape strides)
        = length arg_shape)
  /\
  (forall (id : nat) (et : element_type),
      exists mp,
        MaxPool_ctor (mkNode id [mkOutput et [1; 1; 4; 4]]) [2; 2] [2; 2] = Ok mp /\
        value_type mp = Some (et, [1; 1; 2; 2])).
Proof.
  split.
  - intros arg et arg_shape window_shape strides Hin Hsz Hrank Hpos Hw Hs Hwr Hsr Hf.
    assert (Hvalid : valid_parameters arg_shape window_shape strides)
      by (constructor; assumption).
    pose proof (MaxPool_ctor_valid arg _ _ _ Hin Hvalid) as Hok.
    destruct arg_shape as [|b [|c dims]]; simpl in Hrank; try lia.
    apply Forall_cons in Hsz as [_ Hsz]. apply Forall_cons in Hsz as [_ Hsz].
    assert (Hex : output_image_shape_of dims window_shape strides
                  = output_dims dims window_shape strides)
      by (apply output_image_shape_of_exact; assumption).
    exists (constructed arg (mkOutput et (b :: c :: dims)) window_shape strides), b, c.
    split; [exact Hok|]. split; [reflexivity|]. split; [reflexivity|].
    unfold constructed. cbn [value_type m_output_image_shape get_shape get_element_type].
    change (image_dims (b :: c :: dims)) with dims. rewrite Hex.
    split; [reflexivity|]. split; [reflexivity|]. split.
    + intros i d w s. apply lookup_output_dims.
    + simpl. f_equal. f_equal. unfold output_dims.
      rewrite length_zip_with_l_eq; [reflexivity|].
      rewrite length_zip_with_l_eq; simpl in *; lia.
  - intros id et. eexists. split; reflexivity.
Qed.

Lemma MaxPool_ctor_output_shape_witness :
  exists mp batch_size channel_count,
    MaxPool_ctor (mkNode 7 [mkOutput "float" [2; 3; 10; 9]]) [3; 2] [2; 4] = Ok mp /\
    [2; 3; 10; 9] !! 0%nat = Some batch_size /\
    [2; 3; 10; 9] !! 1%nat = Some channel_count /\
    value_type mp =
      Some ("float"%string,
            [batch_size; channel_count] ++ output_dims (image_dims [2; 3; 10; 9]) [3; 2] [2; 4]) /\
    m_output_image_shape mp = output_dims (image_dims [2; 3; 10; 9]) [3; 2] [2; 4] /\
    (forall i d w s,
        image_dims [2; 3; 10; 9] !! i = Some d ->
        [3; 2] !! i = Some w ->
        [2; 4] !! i = Some s ->
        output_dims (image_dims [2; 3; 10; 9]) [3; 2] [2; 4] !! i
        = Some (ceil_div (d - w + 1) s)) /\
    length ([batch_size; channel_count] ++ output_dims (image_dims [2; 3; 10; 9]) [3; 2] [2; 4])
    = length [2; 3; 10; 9].
Proof.
  apply (proj1 MaxPool_ctor_output_shape
           (mkNode 7 [mkOutput "float" [2; 3; 10; 9]]) "float"%string
           [2; 3; 10; 9] [3; 2] [2; 4]).
  - reflexivity.
  - solve_size_t.
  - simpl; lia.
  - repeat constructor.
  - repeat constructor.
  - repeat constructor.
  - reflexivity.
  - reflexivity.
  - unfold image_dims; simpl. repeat constructor; lia.
Defined.

(** * Validation errors *)

(** C3: when several invariants are violated at once, the error raised is that
    of the first violated invariant in the order of [validation_order]: rank,
    batch size, channel count, window rank, stride rank, image dimensions,
    window dimensions, window fits, strides. *)
Theorem MaxPool_ctor_first_violation
    (arg : Node) (input0 : Output) (window_shape : Shape) (strides : Strides)
    (pre post : list invariant) (inv : invariant) :
  get_inputs [arg] !! 0%nat = Some input0 ->
  validation_order = pre ++ inv :: post ->
  Forall (fun i => violated (get_shape input0) window_shape strides i = false) pre ->
  violated (get_shape input0) window_shape strides inv = true ->
  MaxPool_ctor arg window_shape strides = Throw (ngraph_error (message inv)).
Proof.
  intros Hin Horder Hpre Hinv.
  rewrite (MaxPool_ctor_find arg input0) by exact Hin.
  rewrite Horder. now rewrite (find_first _ pre post inv Hpre Hinv).
Qed.

Lemma MaxPool_ctor_first_violation_witness :
  MaxPool_ctor (mkNode 1 [mkOutput "float" [0; 0; 0; 4]]) [0; 9] [0; 0]
  = Throw (ngraph_error (message Inv_batch)).
Proof.
  apply (MaxPool_ctor_first_violation
           (mkNode 1 [mkOutput "float" [0; 0; 0; 4]]) (mkOutput "float" [0; 0; 0; 4])
           [0; 9] [0; 0] [Inv_rank]
           [Inv_channel; Inv_window_rank; Inv_stride_rank; Inv_image_dim;
            Inv_window_dim; Inv_window_fits; Inv_stride]
           Inv_batch).
  - reflexivity.
  - reflexivity.
  - repeat constructor.
  - reflexivity.
Defined.

Lemma MaxPool_ctor_throws_message
    (arg : Node) (input0 : Output) (window_shape : Shape) (strides : Strides) (m : string) :
  get_inputs [arg] !! 0%nat = Some input0 ->
  MaxPool_ctor arg window_shape strides = Throw (ngraph_error m) ->
  exists inv, violated (get_shape input0) window_shape strides inv = true /\ m = message inv.
Proof.
  intros Hin Hthrow. rewrite (MaxPool_ctor_find arg input0) in Hthrow by exact Hin.
  destruct (List.find _ validation_order) as [inv|] eqn:Hfind; [|discriminate].
  apply List.find_some in Hfind as [_ Hinv].
  exists inv. split; [exact Hinv|congruence].
Qed.

Lemma MaxPool_ctor_throws_iff
    (arg : Node) (input0 : Output) (window_shape : Shape) (strides : Strides) :
  get_inputs [arg] !! 0%nat = Some input0 ->
  (exists m, MaxPool_ctor arg window_shape strides = Throw (ngraph_error m)) <->
  (exists inv, violated (get_shape input0) window_shape strides inv = true).
Proof.
  intros Hin. split.
  - intros [m Hm]. destruct (MaxPool_ctor_throws_message _ _ _ _ _ Hin Hm) as (inv & Hinv & _).
    now exists inv.
  - intros [inv Hinv]. rewrite (MaxPool_ctor_find arg input0) by exact Hin.
    destruct (List.find _ validation_order) as [inv'|] eqn:Hfind.
    + now exists (message inv').
    + pose proof (proj1 (find_violated_None _ _ _) Hfind inv) as Hnone.
      rewrite Hnone in Hinv. discriminate.
Qed.

(** The constructor on a shape of rank at least 3, as its chain of checks. *)
Lemma MaxPool_ctor_checks
    (arg : Node) (et : element_type) (b c : Z) (dims window_shape : Shape) (strides : Strides) :
  get_inputs [arg] !! 0%nat = Some (mkOutput et (b :: c :: dims)) ->
  dims <> [] ->
  MaxPool_ctor arg window_shape strides =
    if b =? 0 then Throw (ngraph_error msg_batch) else
    if c =? 0 then Throw (ngraph_error msg_channel) else
    if negb (length window_shape =? length dims)%nat
    then Throw (ngraph_error msg_window_rank) else
    if negb (length strides =? length dims)%nat
    then Throw (ngraph_error msg_stride_rank) else
    if existsb (fun x => x =? 0) dims then Throw (ngraph_error msg_image_dim) else
    if existsb (fun w => w =? 0) window_shape then Throw (ngraph_error msg_window_dim) else
    if existsb (fun wd => fst wd >? snd wd) (zip window_shape dims)
    then Throw (ngraph_error msg_window_fits) else
    if existsb (fun s => s =? 0) strides then Throw (ngraph_error msg_stride) else
    Ok (constructed arg (mkOutput et (b :: c :: dims)) window_shape strides).
Proof.
  intros Hin Hne. rewrite (MaxPool_ctor_find arg _ _ _ Hin).
  destruct dims as [|d dims]; [congruence|].
  unfold validation_order, List.find. cbn [get_shape violated image_dims drop].
  change ((b :: c :: d :: dims) !! 0%nat) with (Some b).
  change ((b :: c :: d :: dims) !! 1%nat) with (Some c).
  rewrite !bool_decide_Some_zero.
  change (length (b :: c :: d :: dims) <? 3)%nat with false. cbv iota.
  repeat match goal with |- context [if ?x then _ else _] => destruct x end;
    reflexivity.
Qed.

(** What validity gives each check of the chain. *)
Lemma valid_parameters_checks (arg_shape window_shape : Shape) (strides : Strides) :
  valid_parameters arg_shape window_shape strides ->
  exists b c dims,
    arg_shape = b :: c :: dims /\ dims <> [] /\
    (b =? 0) = false /\ (c =? 0) = false /\
    length window_shape = length dims /\
    length strides = length dims /\
    existsb (fun x => x =? 0) dims = false /\
    existsb (fun w => w =? 0) window_shape = false /\
    existsb (fun wd => fst wd >? snd wd) (zip window_shape dims) = false /\
    existsb (fun s => s =? 0) strides = false.
Proof.
  intros Hvalid.
  pose proof (valid_no_violation _ _ _ Hvalid) as Hnone.
  apply no_violation_iff in Hnone
    as (b & c & dims & -> & Hne & Hb & Hc & Hwr & Hsr & Hd & Hw & Hf & Hs).
  exists b, c, dims. repeat split; try assumption.
  - now apply Z.eqb_neq.
  - now apply Z.eqb_neq.
  - now apply existsb_zero_false.
  - now apply existsb_zero_false.
  - now apply existsb_fits_false.
  - now apply existsb_zero_false.
Qed.

Lemma insert_nonempty (l : list Z) (i : nat) (x : Z) : l <> [] -> <[i := x]> l <> [].
Proof.
  intros Hne Heq. apply (f_equal length) in Heq. rewrite length_insert in Heq.
  destruct l; [congruence|discriminate].
Qed.

Lemma existsb_insert_zero (l : list Z) (i : nat) :
  (i < length l)%nat -> existsb (fun x => x =? 0) (<[i := 0]> l) = true.
Proof.
  intros Hi. apply existsb_exists. exists 0. split; [|reflexivity].
  apply list_elem_of_In. apply list_elem_of_lookup. exists i.
  now apply list_lookup_insert_eq.
Qed.

Lemma existsb_insert_too_large (ws ds : list Z) (i : nat) (d v : Z) :
  (i < length ws)%nat -> ds !! i = Some d -> d < v ->
  existsb (fun wd => fst wd >? snd wd) (zip (<[i := v]> ws) ds) = true.
Proof.
  intros Hi Hd Hv. apply existsb_exists. exists (v, d). split.
  - apply list_elem_of_In. apply list_elem_of_lookup. exists i.
    apply lookup_zip_with_Some. exists v, d. repeat split; [|exact Hd].
    now apply list_lookup_insert_eq.
  - simpl. apply Z.gtb_lt. exact Hv.
Qed.

(** C2: the constructor fails with a configuration error exactly when some
    structural invariant is violated, and the message raised is that of a
    violated invariant.  Starting from valid parameters, making a single value
    bad (batch size, channel count, one image dimension, one window dimension,
    one stride set to zero; one window dimension raised above the image
    dimension; a window shape or stride sequence of the wrong rank) raises
    exactly the message for that value; a rank below 3 raises the rank message
    whatever the other parameters are. *)
Theorem MaxPool_ctor_errors :
  (forall (arg : Node) (input0 : Output) (window_shape : Shape) (strides : Strides),
      get_inputs [arg] !! 0%nat = Some input0 ->
      ((exists m, MaxPool_ctor arg window_shape strides = Throw (ngraph_error m)) <->
       (exists inv, violated (get_shape input0) window_shape strides inv = true)) /\
      (forall m, MaxPool_ctor arg window_shape strides = Throw (ngraph_error m) ->
                 exists inv, violated (get_shape input0) window_shape strides inv = true /\
                             m = message inv))
  /\
  (forall (arg : Node) (et : element_type) (arg_shape window_shape : Shape) (strides : Strides),
      get_inputs [arg] !! 0%nat = Some (mkOutput et arg_shape) ->
      (length arg_shape < 3)%nat ->
      MaxPool_ctor arg window_shape strides = Throw (ngraph_error msg_rank))
  /\
  (forall (arg : Node) (et : element_type) (arg_shape window_shape : Shape) (strides : Strides),
      valid_parameters arg_shape window_shape strides ->
      (get_inputs [arg] !! 0%nat = Some (mkOutput et (<[0%nat := 0]> arg_shape)) ->
       MaxPool_ctor arg window_shape strides = Throw (ngraph_error msg_batch)) /\
      (get_inputs [arg] !! 0%nat = Some (mkOutput et (<[1%nat := 0]> arg_shape)) ->
       MaxPool_ctor arg window_shape strides = Throw (ngraph_error msg_channel)) /\
      (forall i, (2 <= i < length arg_shape)%nat ->
                 get_inputs [arg] !! 0%nat = Some (mkOutput et (<[i := 0]> arg_shape)) ->
                 MaxPool_ctor arg window_shape strides = Throw (ngraph_error msg_image_dim)) /\
      (get_inputs [arg] !! 0%nat = Some (mkOutput et arg_shape) ->
       (forall window_shape', length window_shape' <> (length arg_shape - 2)%nat ->
          MaxPool_ctor arg window_shape' strides = Throw (ngraph_error msg_window_rank)) /\
       (forall strides', length strides' <> (length arg_shape - 2)%nat ->
          MaxPool_ctor arg window_shape strides' = Throw (ngraph_error msg_stride_rank)) /\
       (forall i, (i < length window_shape)%nat ->
          MaxPool_ctor arg (<[i := 0]> window_shape) strides
          = Throw (ngraph_error msg_window_dim)) /\
       (forall i d v, image_dims arg_shape !! i = Some d -> d < v ->
          MaxPool_ctor arg (<[i := v]> window_shape) strides
          = Throw (ngraph_error msg_window_fits)) /\
       (forall i, (i < length strides)%nat ->
          MaxPool_ctor arg window_shape (<[i := 0]> strides)
          = Throw (ngraph_error msg_stride)))).
Proof.
  split; [|split].
  - intros arg input0 window_shape strides Hin. split.
    + now apply MaxPool_ctor_throws_iff.
    + intros m. now apply MaxPool_ctor_throws_message.
  - intros arg et arg_shape window_shape strides Hin Hrank.
    rewrite (MaxPool_ctor_find arg _ _ _ Hin).
    unfold validation_order, List.find. cbn [violated get_shape].
    apply Nat.ltb_lt in Hrank. now rewrite Hrank.
  - intros arg et arg_shape window_shape strides Hvalid.
    pose proof (valid_input _ _ _ Hvalid) as Hpos.
    pose proof (valid_window _ _ _ Hvalid) as Hwpos.
    destruct (valid_parameters_checks _ _ _ Hvalid)
      as (b & c & dims & -> & Hne & Hb & Hc & Hwr & Hsr & Hd & Hw & Hf & Hs).
    change (length (b :: c :: dims) - 2)%nat with (length dims - 0)%nat.
    rewrite Nat.sub_0_r.
    split; [|split; [|split; [|intros Hin; split; [|split; [|split; [|split]]]]]].
    + intros Hin. change (<[0%nat := 0]> (b :: c :: dims)) with (0 :: c :: dims) in Hin.
      now rewrite (MaxPool_ctor_checks arg et 0 c dims _ _ Hin Hne).
    + intros Hin. change (<[1%nat := 0]> (b :: c :: dims)) with (b :: 0 :: dims) in Hin.
      rewrite (MaxPool_ctor_checks arg et b 0 dims _ _ Hin Hne). now rewrite Hb.
    + intros i [Hi1 Hi2] Hin.
      destruct i as [|[|j]]; [lia|lia|]. simpl in Hi2.
      change (<[Datatypes.S (Datatypes.S j) := 0]> (b :: c :: dims))
        with (b :: c :: <[j := 0]> dims) in Hin.
      rewrite (MaxPool_ctor_checks arg et b c (<[j := 0]> dims) _ _ Hin
                 (insert_nonempty _ _ _ Hne)).
      rewrite Hb, Hc, length_insert, Hwr, Hsr, !Nat.eqb_refl. cbn [negb].
      rewrite existsb_insert_zero by lia. reflexivity.
    + intros window_shape' Hlen.
      rewrite (MaxPool_ctor_checks arg et b c dims _ _ Hin Hne).
      rewrite Hb, Hc. apply Nat.eqb_neq in Hlen. now rewrite Hlen.
    + intros strides' Hlen.
      rewrite (MaxPool_ctor_checks arg et b c dims _ _ Hin Hne).
      rewrite Hb, Hc, Hwr, Nat.eqb_refl. apply Nat.eqb_neq in Hlen. now rewrite Hlen.
    + intros i Hi.
      rewrite (MaxPool_ctor_checks arg et b c dims _ _ Hin Hne).
      rewrite Hb, Hc, length_insert, Hwr, Hsr, !Nat.eqb_refl, Hd. cbn [negb].
      rewrite existsb_insert_zero by lia. reflexivity.
    + intros i d v Hdi Hv. change (image_dims (b :: c :: dims)) with dims in Hdi.
      assert (Hi : (i < length window_shape)%nat)
        by (rewrite Hwr; eapply lookup_lt_Some; exact Hdi).
      assert (Hdpos : 0 < d).
      { apply Forall_cons in Hpos as [_ Hpos]. apply Forall_cons in Hpos as [_ Hpos].
        rewrite Forall_lookup in Hpos. exact (Hpos i d Hdi). }
      rewrite (MaxPool_ctor_checks arg et b c dims _ _ Hin Hne).
      rewrite Hb, Hc, length_insert, Hwr, Hsr, !Nat.eqb_refl, Hd. cbn [negb].
      assert (Hnz : existsb (fun w => w =? 0) (<[i := v]> window_shape) = false).
      { apply existsb_zero_false. apply Forall_insert; [|lia].
        now apply Forall_pos_nonzero. }
      rewrite Hnz, (existsb_insert_too_large window_shape dims i d v Hi Hdi Hv).
      reflexivity.
    + intros i Hi.
      rewrite (MaxPool_ctor_checks arg et b c dims _ _ Hin Hne).
      rewrite Hb, Hc, length_insert, Hwr, Hsr, !Nat.eqb_refl, Hd, Hw, Hf. cbn [negb].
      rewrite existsb_insert_zero by lia. reflexivity.
Qed.

Lemma MaxPool_ctor_errors_witness :
  ((exists m, MaxPool_ctor (mkNode 2 [mkOutput "float" [1; 1; 4]]) [5] [1]
              = Throw (ngraph_error m)) <->
   (exists inv, violated [1; 1; 4] [5] [1] inv = true)) /\
  (forall m, MaxPool_ctor (mkNode 2 [mkOutput "float" [1; 1; 4]]) [5] [1]
             = Throw (ngraph_error m) ->
             exists inv, violated [1; 1; 4] [5] [1] inv = true /\ m = message inv).
Proof.
  apply (proj1 MaxPool_ctor_errors
           (mkNode 2 [mkOutput "float" [1; 1; 4]]) (mkOutput "float" [1; 1; 4]) [5] [1]).
  reflexivity.
Defined.

(** * The default-stride constructor *)

Lemma one_output (arg : Node) :
  length (get_outputs arg) = 1%nat -> exists o, get_outputs arg = [o].
Proof.
  destruct (get_outputs arg) as [|o [|o' l]]; try discriminate. intros _. now exists o.
Qed.

Lemma get_inputs_single (arg : Node) : get_inputs [arg] = get_outputs arg.
Proof. unfold get_inputs. simpl. apply app_nil_r. Qed.

(** On a node with exactly one output the two overloads agree, on results and
    on errors. *)
Lemma MaxPool_ctor_default_one_output (arg : Node) (window_shape : Shape) :
  length (get_outputs arg) = 1%nat ->
  MaxPool_ctor_default arg window_shape
  = MaxPool_ctor arg window_shape (replicate (spatial_axis_count arg) 1).
Proof.
  intros Hone. destruct (one_output arg Hone) as [[et arg_shape] Ho].
  assert (Hin : get_inputs [arg] !! 0%nat = Some (mkOutput et arg_shape))
    by (now rewrite get_inputs_single, Ho).
  unfold MaxPool_ctor_default, default_strides, spatial_axis_count, vector_at.
  rewrite Hin, Ho. cbn [length Nat.eqb negb lookup list_lookup bind get_shape].
  destruct (length arg_shape <? 3)%nat eqn:Hrank; cbn [bind].
  - rewrite (MaxPool_ctor_find arg _ _ _ Hin).
    unfold validation_order, List.find. cbn [violated get_shape]. now rewrite Hrank.
  - unfold image_dims. now rewrite length_drop.
Qed.

Lemma MaxPool_ctor_default_Ok_inv (arg : Node) (window_shape : Shape) (mp : MaxPool) :
  MaxPool_ctor_default arg window_shape = Ok mp ->
  length (get_outputs arg) = 1%nat /\
  MaxPool_ctor arg window_shape (replicate (spatial_axis_count arg) 1) = Ok mp.
Proof.
  intros Hok.
  assert (Hone : length (get_outputs arg) = 1%nat).
  { unfold MaxPool_ctor_default, default_strides in Hok.
    destruct (Nat.eqb_spec (length (get_outputs arg)) 1) as [H1|H1]; [exact H1|].
    discriminate. }
  split; [exact Hone|]. now rewrite <- MaxPool_ctor_default_one_output.
Qed.



Lemma msg_one_output_distinct (inv : invariant) : message inv <> msg_one_output.
Proof. destruct inv; intros H; cbv in H; discriminate H. Qed.

(** C9: on a node whose output count is not one, the two-argument overload
    throws "Max pool image batch argument must have exactly one output",
    whatever rank and shapes are: [default_strides] runs, and checks the output
    count, before the three-argument constructor starts.  The body of the
    three-argument constructor has no such check and never throws that
    error. *)
Theorem MaxPool_ctor_default_requires_one_output :
  (forall (arg : Node) (window_shape : Shape),
      length (get_outputs arg) <> 1%nat ->
      MaxPool_ctor_default arg window_shape = Throw (ngraph_error msg_one_output))
  /\
  (forall (arg : Node) (window_shape : Shape) (strides : Strides),
      MaxPool_ctor arg window_shape strides <> Throw (ngraph_error msg_one_output)).
Proof.
  split.
  - intros arg window_shape Hne.
    unfold MaxPool_ctor_default, default_strides.
    apply Nat.eqb_neq in Hne. now rewrite Hne.
  - intros arg window_shape strides Hthrow.
    destruct (get_inputs [arg] !! 0%nat) as [input0|] eqn:Hin.
    + destruct (MaxPool_ctor_throws_message _ _ _ _ _ Hin Hthrow) as (inv & _ & Hm).
      symmetry in Hm. now apply msg_one_output_distinct in Hm.
    + unfold MaxPool_ctor, vector_at in Hthrow. rewrite Hin in Hthrow. discriminate.
Qed.

Lemma MaxPool_ctor_default_requires_one_output_witness :
  MaxPool_ctor_default (mkNode 4 []) [2; 2] = Throw (ngraph_error msg_one_output) /\
  MaxPool_ctor_default (mkNode 5 [mkOutput "float" [1]; mkOutput "float" [0; 0; 0]]) [0]
  = Throw (ngraph_error msg_one_output).
Proof.
  split.
  - apply (proj1 MaxPool_ctor_default_requires_one_output (mkNode 4 []) [2; 2]).
    simpl; lia.
  - apply (proj1 MaxPool_ctor_default_requires_one_output
             (mkNode 5 [mkOutput "float" [1]; mkOutput "float" [0; 0; 0]]) [0]).
    simpl; lia.
Defined.

(** * No zero-sized output dimension *)

Lemma output_dims_positive (dims window_shape : Shape) (strides : Strides) :
  Forall2 (fun w d => w <= d) window_shape dims ->
  Forall (fun s => 0 < s) strides ->
  Forall (fun x => 1 <= x) (output_dims dims window_shape strides).
Proof.
  intros Hf. revert strides.
  induction Hf as [|w d ws ds Hwd Hf IH]; intros strides Hs; [constructor|].
  destruct strides as [|s strides]; [constructor|].
  apply Forall_cons in Hs as [Hs Hss].
  unfold output_dims in *. simpl. constructor.
  - apply ceil_div_ge_1; lia.
  - now apply IH.
Qed.

Lemma size_t_nonzero_pos (l : list Z) :
  size_t_vector l -> Forall (fun x => x <> 0) l -> Forall (fun x => 0 < x) l.
Proof.
  unfold size_t_vector, is_size_t. rewrite !Forall_forall.
  intros Hsz Hnz x Hx. specialize (Hsz x Hx). specialize (Hnz x Hx). simpl in *. lia.
Qed.

Lemma MaxPool_ctor_output_positive
    (arg : Node) (window_shape : Shape) (strides : Strides) (mp : MaxPool) :
  size_t_node arg -> size_t_vector window_shape -> size_t_vector strides ->
  MaxPool_ctor arg window_shape strides = Ok mp ->
  exists et shape,
    value_type mp = Some (et, shape) /\
    Forall (fun x => 1 <= x) shape /\
    Forall (fun x => 1 <= x) (m_output_image_shape mp).
Proof.
  intros Hnode Hwsz Hssz Hok.
  destruct (MaxPool_ctor_Ok_inv _ _ _ _ Hok) as (input0 & Hin & -> & Hnone).
  assert (Hsz : size_t_vector (get_shape input0)).
  { rewrite get_inputs_single in Hin. unfold size_t_node in Hnode.
    rewrite Forall_lookup in Hnode. exact (Hnode 0%nat input0 Hin). }
  destruct input0 as [et arg_shape]. cbn [get_shape] in *.
  apply no_violation_iff in Hnone
    as (b & c & dims & -> & Hne & Hb & Hc & Hwr & Hsr & Hd & Hw & Hf & Hs).
  assert (Hall : Forall (fun x => 0 < x) (b :: c :: dims))
    by (apply size_t_nonzero_pos; [exact Hsz|repeat constructor; assumption]).
  apply Forall_cons in Hall as [Hbpos Hall]. apply Forall_cons in Hall as [Hcpos _].
  apply Forall_cons in Hsz as [_ Hsz]. apply Forall_cons in Hsz as [_ Hsz].
  assert (Hwpos : Forall (fun w => 0 < w) window_shape) by (now apply size_t_nonzero_pos).
  assert (Hspos : Forall (fun s => 0 < s) strides) by (now apply size_t_nonzero_pos).
  assert (Hout : Forall (fun x => 1 <= x) (output_image_shape_of dims window_shape strides)).
  { rewrite output_image_shape_of_exact by assumption. now apply output_dims_positive. }
  exists et, (b :: c :: output_image_shape_of dims window_shape strides).
  split; [reflexivity|]. split.
  - constructor; [lia|]. constructor; [lia|]. exact Hout.
  - exact Hout.
Qed.

(** C10: every entry of the output shape recorded by a successful
    construction, with either constructor, is at least 1. *)
Theorem MaxPool_output_shape_positive :
  (forall (arg : Node) (window_shape : Shape) (strides : Strides) (mp : MaxPool),
      size_t_node arg -> size_t_vector window_shape -> size_t_vector strides ->
      MaxPool_ctor arg window_shape strides = Ok mp ->
      exists et shape,
        value_type mp = Some (et, shape) /\
        Forall (fun x => 1 <= x) shape /\
        Forall (fun x => 1 <= x) (m_output_image_shape mp))
  /\
  (forall (arg : Node) (window_shape : Shape) (mp : MaxPool),
      size_t_node arg -> size_t_vector window_shape ->
      MaxPool_ctor_default arg window_shape = Ok mp ->
      exists et shape,
        value_type mp = Some (et, shape) /\
        Forall (fun x => 1 <= x) shape /\
        Forall (fun x => 1 <= x) (m_output_image_shape mp)).
Proof.
  split.
  - apply MaxPool_ctor_output_positive.
  - intros arg window_shape mp Hnode Hwsz Hok.
    apply MaxPool_ctor_default_Ok_inv in Hok as [_ Hok].
    apply (MaxPool_ctor_output_positive arg window_shape
             (replicate (spatial_axis_count arg) 1) mp Hnode Hwsz); [|exact Hok].
    apply Forall_replicate. unfold is_size_t, size_t_modulus. lia.
Qed.

Lemma MaxPool_output_shape_positive_witness :
  exists et shape,
    value_type (constructed (mkNode 6 [mkOutput "float" [1; 1; 4; 4]])
                            (mkOutput "float" [1; 1; 4; 4]) [2; 2] [2; 2])
    = Some (et, shape) /\
    Forall (fun x => 1 <= x) shape /\
    Forall (fun x => 1 <= x)
      (m_output_image_shape
         (constructed (mkNode 6 [mkOutput "float" [1; 1; 4; 4]])
                      (mkOutput "float" [1; 1; 4; 4]) [2; 2] [2; 2])).
Proof.
  apply (proj1 MaxPool_output_shape_positive
           (mkNode 6 [mkOutput "float" [1; 1; 4; 4]]) [2; 2] [2; 2]).
  - repeat constructor; unfold is_size_t, size_t_modulus; simpl; lia.
  - solve_size_t.
  - solve_size_t.
  - reflexivity.
Defined.

(** * Functional identity *)

Lemma test_identical_refl (this : MaxPool) : test_identical this this = true.
Proof.
  unfold test_identical. rewrite String.eqb_refl. simpl.
  now apply bool_decide_eq_true.
Qed.

Lemma is_functionally_identical_iff (this other : MaxPool) :
  is_functionally_identical this other = true <->
  test_identical this other = true /\
  m_window_shape this = m_window_shape other /\
  m_window_movement_strides this = m_window_movement_strides other /\
  m_channel_count this = m_channel_count other /\
  m_input_image_shape this = m_input_image_shape other /\
  m_output_image_shape this = m_output_image_shape other /\
  m_batch_size this = m_batch_size other /\
  m_image_dimension_count this = m_image_dimension_count other.
Proof.
  unfold is_functionally_identical.
  destruct (test_identical this other).
  - cbn [andb]. rewrite !andb_true_iff, !bool_decide_eq_true, !Z.eqb_eq, Nat.eqb_eq.
    tauto.
  - split; [discriminate|]. intros [H _]. discriminate H.
Qed.

(** C5: [is_functionally_identical] holds exactly when the node-level identity
    check passes and the seven fields are equal; a node is identical to itself;
    nodes that differ in any one of the fields are not identical.  The function
    only reads its operands. *)
Theorem is_functionally_identical_spec :
  (forall this other : MaxPool,
      is_functionally_identical this other = true <->
      test_identical this other = true /\
      m_window_shape this = m_window_shape other /\
      m_window_movement_strides this = m_window_movement_strides other /\
      m_channel_count this = m_channel_count other /\
      m_input_image_shape this = m_input_image_shape other /\
      m_output_image_shape this = m_output_image_shape other /\
      m_batch_size this = m_batch_size other /\
      m_image_dimension_count this = m_image_dimension_count other)
  /\
  (forall this : MaxPool, is_functionally_identical this this = true)
  /\
  (forall this other : MaxPool,
      m_window_shape this <> m_window_shape other \/
      m_window_movement_strides this <> m_window_movement_strides other \/
      m_channel_count this <> m_channel_count other \/
      m_input_image_shape this <> m_input_image_shape other \/
      m_output_image_shape this <> m_output_image_shape other \/
      m_batch_size this <> m_batch_size other \/
      m_image_dimension_count this <> m_image_dimension_count other ->
      is_functionally_identical this other = false).
Proof.
  split; [|split].
  - apply is_functionally_identical_iff.
  - intros this. apply is_functionally_identical_iff.
    split; [apply test_identical_refl|]. repeat split.
  - intros this other Hdiff.
    destruct (is_functionally_identical this other) eqn:Heq; [|reflexivity].
    apply is_functionally_identical_iff in Heq.
    destruct Heq as (_ & H1 & H2 & H3 & H4 & H5 & H6 & H7).
    tauto.
Qed.

Lemma is_functionally_identical_spec_witness :
  is_functionally_identical
    (constructed (mkNode 6 [mkOutput "float" [1; 1; 4; 4]])
                 (mkOutput "float" [1; 1; 4; 4]) [2; 2] [2; 2])
    (constructed (mkNode 6 [mkOutput "float" [1; 1; 4; 4]])
                 (mkOutput "float" [1; 1; 4; 4]) [2; 2] [2; 1])
  = false.
Proof.
  apply (proj2 (proj2 is_functionally_identical_spec)).
  right. left. simpl. discriminate.
Defined.

(** * Adjoints *)

Lemma generate_adjoints_run
    (this : MaxPool) (delta : Node) (s : State) (od : Output) (operand : Node)
    (w0 w1 s0 s1 : Z) :
  get_outputs delta !! 0%nat = Some od ->
  arguments this !! 0%nat = Some operand ->
  m_window_movement_strides this !! 0%nat = Some s0 ->
  m_window_movement_strides this !! 1%nat = Some s1 ->
  m_window_shape this !! 0%nat = Some w0 ->
  m_window_shape this !! 1%nat = Some w1 ->
  generate_adjoints this delta s
  = Ok (tt, mkState (10 + fresh s)
              (adjoints s ++
                 [(Existing operand,
                   adjoint_node (fresh s) (get_element_type od) operand delta w0 w1 s0 s1)])).
Proof.
  intros Hd Ha Hs0 Hs1 Hw0 Hw1.
  unfold generate_adjoints, bindM, lift, make_shared, add_delta, node_element_type,
    get_input_op, vector_at, bind.
  rewrite Hd. cbn [fresh adjoints]. rewrite Ha. cbn [fresh adjoints].
  rewrite Hs0. cbn [fresh adjoints]. rewrite Hs1. cbn [fresh adjoints].
  rewrite Hw0. cbn [fresh adjoints]. rewrite Hw1. reflexivity.
Qed.

(** [generate_adjoints] looks at the first two window dimensions and strides
    and at the argument list only. *)
Lemma generate_adjoints_ext (this other : MaxPool) (delta : Node) (s : State) :
  arguments other = arguments this ->
  take 2 (m_window_shape other) = take 2 (m_window_shape this) ->
  take 2 (m_window_movement_strides other) = take 2 (m_window_movement_strides this) ->
  generate_adjoints other delta s = generate_adjoints this delta s.
Proof.
  intros Ha Hw Hs.
  assert (Hw0 : m_window_shape other !! 0%nat = m_window_shape this !! 0%nat)
    by (rewrite <- (lookup_take_lt _ 2 0), Hw, lookup_take_lt by lia; reflexivity).
  assert (Hw1 : m_window_shape other !! 1%nat = m_window_shape this !! 1%nat)
    by (rewrite <- (lookup_take_lt _ 2 1), Hw, lookup_take_lt by lia; reflexivity).
  assert (Hs0 : m_window_movement_strides other !! 0%nat
                = m_window_movement_strides this !! 0%nat)
    by (rewrite <- (lookup_take_lt _ 2 0), Hs, lookup_take_lt by lia; reflexivity).
  assert (Hs1 : m_window_movement_strides other !! 1%nat
                = m_window_movement_strides this !! 1%nat)
    by (rewrite <- (lookup_take_lt _ 2 1), Hs, lookup_take_lt by lia; reflexivity).
  unfold generate_adjoints, bindM, lift, make_shared, add_delta, node_element_type,
    get_input_op, vector_at, bind.
  destruct (get_outputs delta !! 0%nat) as [od|]; [|reflexivity]. cbn [fresh adjoints].
  rewrite Ha. destruct (arguments this !! 0%nat) as [operand|]; [|reflexivity]. cbn [fresh adjoints].
  rewrite Hs0. destruct (m_window_movement_strides this !! 0%nat); [|reflexivity]. cbn [fresh adjoints].
  rewrite Hs1. destruct (m_window_movement_strides this !! 1%nat); [|reflexivity]. cbn [fresh adjoints].
  rewrite Hw0. destruct (m_window_shape this !! 0%nat); [|reflexivity]. cbn [fresh adjoints].
  rewrite Hw1. destruct (m_window_shape this !! 1%nat); reflexivity.
Qed.

(** What a successful construction fixes for the adjoint: the argument list,
    the stored parameters and their common length. *)
Lemma MaxPool_ctor_Ok_fields
    (arg : Node) (window_shape : Shape) (strides : Strides) (mp : MaxPool) :
  MaxPool_ctor arg window_shape strides = Ok mp ->
  exists input0,
    get_inputs [arg] !! 0%nat = Some input0 /\
    arguments mp = [arg] /\
    m_window_shape mp = window_shape /\
    m_window_movement_strides mp = strides /\
    (1 <= m_image_dimension_count mp)%nat /\
    length window_shape = m_image_dimension_count mp /\
    length strides = m_image_dimension_count mp /\
    length (get_shape input0) = (2 + m_image_dimension_count mp)%nat.
Proof.
  intros Hok.
  destruct (MaxPool_ctor_Ok_inv _ _ _ _ Hok) as (input0 & Hin & -> & Hnone).
  exists input0. split; [exact Hin|].
  apply no_violation_iff in Hnone
    as (b & c & dims & Hshape & Hne & _ & _ & Hwr & Hsr & _).
  unfold constructed. cbn [arguments m_window_shape m_window_movement_strides
                             m_image_dimension_count].
  rewrite Hshape. cbn [length]. rewrite Nat.sub_succ, Nat.sub_succ, Nat.sub_0_r.
  repeat split; try assumption.
  destruct dims; [congruence|simpl; lia].
Qed.

(** C6: for a constructed MaxPool node with at least two spatial axes,
    [generate_adjoints] builds one select-and-scatter node over the operand and
    the delta, with selection function [a > b], scatter function [a + b], the
    scalar constant "0" of the delta's element type as initial value, window
    shape [1, 1, window_shape[0], window_shape[1]] and strides
    [1, 1, strides[0], strides[1]], and registers it, once, as contribution for
    the operand.  Only the first two window dimensions and strides are read. *)
Theorem generate_adjoints_select_and_scatter
    (arg : Node) (window_shape : Shape) (strides : Strides) (mp : MaxPool)
    (delta : Node) (od : Output) (s : State) :
  MaxPool_ctor arg window_shape strides = Ok mp ->
  (2 <= m_image_dimension_count mp)%nat ->
  get_outputs delta !! 0%nat = Some od ->
  (exists w0 w1 s0 s1,
      window_shape !! 0%nat = Some w0 /\ window_shape !! 1%nat = Some w1 /\
      strides !! 0%nat = Some s0 /\ strides !! 1%nat = Some s1 /\
      let et := get_element_type od in
      let n := fresh s in
      let a := op_Parameter n et [] in
      let b := op_Parameter (1 + n) et [] in
      let a' := op_Parameter (4 + n) et [] in
      let b' := op_Parameter (5 + n) et [] in
      let sas :=
        op_SelectAndScatter (9 + n) (Existing arg) (Existing delta)
          (op_Constant (8 + n) et [] ["0"%string])
          (mkFunction (3 + n) (op_Greater (2 + n) a b) [a; b])
          (mkFunction (7 + n) (op_Add (6 + n) a' b') [a'; b'])
          [1; 1; w0; w1] [1; 1; s0; s1] in
      generate_adjoints mp delta s
      = Ok (tt, mkState (10 + n) (adjoints s ++ [(Existing arg, sas)])))
  /\
  (forall other : MaxPool,
      arguments other = arguments mp ->
      take 2 (m_window_shape other) = take 2 (m_window_shape mp) ->
      take 2 (m_window_movement_strides other) = take 2 (m_window_movement_strides mp) ->
      generate_adjoints other delta s = generate_adjoints mp delta s).
Proof.
  intros Hok Hcount Hd. split.
  - destruct (MaxPool_ctor_Ok_fields _ _ _ _ Hok)
      as (input0 & _ & Hargs & Hws & Hst & _ & Hwlen & Hslen & _).
    destruct window_shape as [|w0 [|w1 ws]]; simpl in Hwlen; try lia.
    destruct strides as [|s0 [|s1 st]]; simpl in Hslen; try lia.
    exists w0, w1, s0, s1. repeat split.
    apply (generate_adjoints_run mp delta s od arg w0 w1 s0 s1 Hd).
    + now rewrite Hargs.
    + now rewrite Hst.
    + now rewrite Hst.
    + now rewrite Hws.
    + now rewrite Hws.
  - intros other. apply generate_adjoints_ext.
Qed.

Lemma generate_adjoints_select_and_scatter_witness :
  generate_adjoints
    (constructed (mkNode 11 [mkOutput "float" [1; 1; 6; 6; 6]])
                 (mkOutput "float" [1; 1; 6; 6; 6]) [2; 3; 1] [4; 5; 1])
    (mkNode 12 [mkOutput "float" [1; 1; 2; 1; 6]]) (mkState 100 [])
  = Ok (tt,
        mkState 110
          [(Existing (mkNode 11 [mkOutput "float" [1; 1; 6; 6; 6]]),
            op_SelectAndScatter 109
              (Existing (mkNode 11 [mkOutput "float" [1; 1; 6; 6; 6]]))
              (Existing (mkNode 12 [mkOutput "float" [1; 1; 2; 1; 6]]))
              (op_Constant 108 "float" [] ["0"%string])
              (mkFunction 103
                 (op_Greater 102 (op_Parameter 100 "float" []) (op_Parameter 101 "float" []))
                 [op_Parameter 100 "float" []; op_Parameter 101 "float" []])
              (mkFunction 107
                 (op_Add 106 (op_Parameter 104 "float" []) (op_Parameter 105 "float" []))
                 [op_Parameter 104 "float" []; op_Parameter 105 "float" []])
              [1; 1; 2; 3] [1; 1; 4; 5])]).
Proof.
  destruct (proj1 (generate_adjoints_select_and_scatter
                     (mkNode 11 [mkOutput "float" [1; 1; 6; 6; 6]]) [2; 3; 1] [4; 5; 1]
                     (constructed (mkNode 11 [mkOutput "float" [1; 1; 6; 6; 6]])
                                  (mkOutput "float" [1; 1; 6; 6; 6]) [2; 3; 1] [4; 5; 1])
                     (mkNode 12 [mkOutput "float" [1; 1; 2; 1; 6]])
                     (mkOutput "float" [1; 1; 2; 1; 6]) (mkState 100 [])
                     eq_refl ltac:(simpl; lia) eq_refl))
    as (w0 & w1 & s0 & s1 & Hw0 & Hw1 & Hs0 & Hs1 & Hrun).
  inversion Hw0; inversion Hw1; inversion Hs0; inversion Hs1; subst.
  exact Hrun.
Defined.

(** C7: for a constructed MaxPool node with fewer than two spatial axes,
    [generate_adjoints] throws [std::out_of_range] (from [at(1)]) and registers
    nothing. *)
Theorem generate_adjoints_out_of_range
    (arg : Node) (window_shape : Shape) (strides : Strides) (mp : MaxPool)
    (delta : Node) (od : Output) (s : State) :
  MaxPool_ctor arg window_shape strides = Ok mp ->
  (m_image_dimension_count mp < 2)%nat ->
  get_outputs delta !! 0%nat = Some od ->
  (length window_shape < 2)%nat /\ (length strides < 2)%nat /\
  generate_adjoints mp delta s = Throw out_of_range.
Proof.
  intros Hok Hcount Hd.
  destruct (MaxPool_ctor_Ok_fields _ _ _ _ Hok)
    as (input0 & _ & Hargs & Hws & Hst & Hone & Hwlen & Hslen & _).
  split; [lia|]. split; [lia|].
  destruct strides as [|s0 [|s1 st]]; simpl in Hslen; try lia.
  unfold generate_adjoints, bindM, lift, make_shared, add_delta, node_element_type,
    get_input_op, vector_at, bind.
  rewrite Hd. cbn [fresh adjoints]. rewrite Hargs, Hst. reflexivity.
Qed.

Lemma generate_adjoints_out_of_range_witness :
  (length [3] < 2)%nat /\ (length [1] < 2)%nat /\
  generate_adjoints
    (constructed (mkNode 13 [mkOutput "float" [2; 3; 10]]) (mkOutput "float" [2; 3; 10]) [3] [1])
    (mkNode 14 [mkOutput "float" [2; 3; 8]]) (mkState 0 [])
  = Throw out_of_range.
Proof.
  apply (generate_adjoints_out_of_range
           (mkNode 13 [mkOutput "float" [2; 3; 10]]) [3] [1]
           (constructed (mkNode 13 [mkOutput "float" [2; 3; 10]])
                        (mkOutput "float" [2; 3; 10]) [3] [1])
           (mkNode 14 [mkOutput "float" [2; 3; 8]]) (mkOutput "float" [2; 3; 8])
           (mkState 0 [])).
  - reflexivity.
  - simpl; lia.
  - reflexivity.
Defined.

(** * Further properties of the constructor *)

(** A successful construction, opened up: the input shape has the form
    [b :: c :: dims] and every check of the constructor has passed. *)
Lemma MaxPool_ctor_Ok_shape
    (arg : Node) (window_shape : Shape) (strides : Strides) (mp : MaxPool) :
  MaxPool_ctor arg window_shape strides = Ok mp ->
  exists et b c dims,
    get_inputs [arg] !! 0%nat = Some (mkOutput et (b :: c :: dims)) /\
    mp = constructed arg (mkOutput et (b :: c :: dims)) window_shape strides /\
    dims <> [] /\ b <> 0 /\ c <> 0 /\
    length window_shape = length dims /\ length strides = length dims /\
    Forall (fun x => x <> 0) dims /\ Forall (fun x => x <> 0) window_shape /\
    Forall2 (fun w d => w <= d) window_shape dims /\
    Forall (fun x => x <> 0) strides.
Proof.
  intros Hok.
  destruct (MaxPool_ctor_Ok_inv _ _ _ _ Hok) as ([et arg_shape] & Hin & Hmp & Hnone).
  cbn [get_shape] in Hnone.
  apply no_violation_iff in Hnone
    as (b & c & dims & -> & Hne & Hb & Hc & Hwr & Hsr & Hd & Hw & Hf & Hs).
  exists et, b, c, dims. repeat split; assumption.
Qed.

Lemma length_sub_2 (b c : Z) (dims : list Z) :
  (length (b :: c :: dims) - 2)%nat = length dims.
Proof. cbn [length]. now rewrite !Nat.sub_succ, Nat.sub_0_r. Qed.

(** X1: a successful construction stores the window shape and the strides as
    given, takes batch size and channel count from axes 0 and 1 of the input,
    the image dimensions from the remaining axes, and keeps window shape,
    strides, input image shape and output image shape all of length
    [m_image_dimension_count]; the recorded type is the input's element type
    with shape batch, channel, output image shape. *)
Theorem MaxPool_ctor_records_fields
    (arg : Node) (window_shape : Shape) (strides : Strides) (mp : MaxPool) :
  MaxPool_ctor arg window_shape strides = Ok mp ->
  exists input0 b c,
    get_inputs [arg] !! 0%nat = Some input0 /\
    get_shape input0 !! 0%nat = Some b /\
    get_shape input0 !! 1%nat = Some c /\
    description mp = "MaxPool"%string /\
    arguments mp = [arg] /\
    m_window_shape mp = window_shape /\
    m_window_movement_strides mp = strides /\
    m_batch_size mp = b /\
    m_channel_count mp = c /\
    m_image_dimension_count mp = (length (get_shape input0) - 2)%nat /\
    (1 <= m_image_dimension_count mp)%nat /\
    m_input_image_shape mp = drop 2 (get_shape input0) /\
    length window_shape = m_image_dimension_count mp /\
    length strides = m_image_dimension_count mp /\
    length (m_input_image_shape mp) = m_image_dimension_count mp /\
    length (m_output_image_shape mp) = m_image_dimension_count mp /\
    value_type mp = Some (get_element_type input0, b :: c :: m_output_image_shape mp).
Proof.
  intros Hok.
  destruct (MaxPool_ctor_Ok_shape _ _ _ _ Hok)
    as (et & b & c & dims & Hin & -> & Hne & _ & _ & Hwr & Hsr & _).
  exists (mkOutput et (b :: c :: dims)), b, c.
  unfold constructed.
  cbn [get_shape get_element_type description arguments m_window_shape
       m_window_movement_strides m_batch_size m_channel_count m_image_dimension_count
       m_input_image_shape m_output_image_shape value_type].
  change (image_dims (b :: c :: dims)) with dims.
  change (drop 2 (b :: c :: dims)) with dims.
  rewrite length_sub_2, length_output_image_shape_of by assumption.
  repeat split; try assumption; try reflexivity.
  destruct dims; [congruence|simpl; lia].
Qed.

Lemma MaxPool_ctor_records_fields_witness :
  exists input0 b c,
    get_inputs [mkNode 21 [mkOutput "float" [2; 3; 10; 9]]] !! 0%nat = Some input0 /\
    get_shape input0 !! 0%nat = Some b /\
    get_shape input0 !! 1%nat = Some c /\
    description (constructed (mkNode 21 [mkOutput "float" [2; 3; 10; 9]])
                             (mkOutput "float" [2; 3; 10; 9]) [3; 2] [2; 4])
    = "MaxPool"%string.
Proof.
  destruct (MaxPool_ctor_records_fields
              (mkNode 21 [mkOutput "float" [2; 3; 10; 9]]) [3; 2] [2; 4]
              (constructed (mkNode 21 [mkOutput "float" [2; 3; 10; 9]])
                           (mkOutput "float" [2; 3; 10; 9]) [3; 2] [2; 4])
              eq_refl)
    as (input0 & b & c & H1 & H2 & H3 & H4 & _).
  exists input0, b, c. repeat split; assumption.
Defined.

(** X2: for an input and parameters holding [size_t] values, the constructor
    succeeds exactly when the parameters are valid: rank at least 3, every
    entry of the input shape, the window shape and the strides positive, window
    and stride ranks equal to the number of spatial axes, and every window
    dimension at most the image dimension. *)
Theorem MaxPool_ctor_succeeds_iff_valid
    (arg : Node) (input0 : Output) (window_shape : Shape) (strides : Strides) :
  get_inputs [arg] !! 0%nat = Some input0 ->
  size_t_vector (get_shape input0) ->
  size_t_vector window_shape ->
  size_t_vector strides ->
  (exists mp, MaxPool_ctor arg window_shape strides = Ok mp) <->
  valid_parameters (get_shape input0) window_shape strides.
Proof.
  intros Hin Hsz Hwsz Hssz. split.
  - intros [mp Hok].
    destruct (MaxPool_ctor_Ok_shape _ _ _ _ Hok)
      as (et & b & c & dims & Hin' & _ & Hne & Hb & Hc & Hwr & Hsr & Hd & Hw & Hf & Hs).
    rewrite Hin in Hin'. injection Hin' as ->. cbn [get_shape] in *.
    constructor.
    + destruct dims; [congruence|simpl; lia].
    + apply size_t_nonzero_pos; [exact Hsz|]. repeat constructor; assumption.
    + now apply size_t_nonzero_pos.
    + now apply size_t_nonzero_pos.
    + now rewrite length_sub_2.
    + now rewrite length_sub_2.
    + exact Hf.
  - intros Hvalid. eexists. now apply (MaxPool_ctor_valid arg input0).
Qed.

Lemma MaxPool_ctor_succeeds_iff_valid_witness :
  (exists mp, MaxPool_ctor (mkNode 22 [mkOutput "float" [1; 1; 4]]) [5] [1] = Ok mp) <->
  valid_parameters [1; 1; 4] [5] [1].
Proof.
  apply (MaxPool_ctor_succeeds_iff_valid
           (mkNode 22 [mkOutput "float" [1; 1; 4]]) (mkOutput "float" [1; 1; 4]) [5] [1]).
  - reflexivity.
  - solve_size_t.
  - solve_size_t.
  - solve_size_t.
Defined.

Lemma ceil_div_le (a b : Z) : 1 <= a -> 1 <= b -> ceil_div a b <= a.
Proof.
  intros Ha Hb. unfold ceil_div.
  apply Z.lt_succ_r. apply Z.div_lt_upper_bound; nia.
Qed.

(** What success gives per spatial axis, for [size_t] inputs. *)
Lemma MaxPool_ctor_Ok_axes
    (arg : Node) (window_shape : Shape) (strides : Strides) (mp : MaxPool) :
  size_t_node arg -> size_t_vector window_shape -> size_t_vector strides ->
  MaxPool_ctor arg window_shape strides = Ok mp ->
  size_t_vector (m_input_image_shape mp) /\
  Forall (fun w => 0 < w) window_shape /\
  Forall (fun s => 0 < s) strides /\
  Forall2 (fun w d => w <= d) window_shape (m_input_image_shape mp) /\
  m_window_movement_strides mp = strides /\
  length strides = m_image_dimension_count mp /\
  m_output_image_shape mp = output_dims (m_input_image_shape mp) window_shape strides.
Proof.
  intros Hnode Hwsz Hssz Hok.
  destruct (MaxPool_ctor_Ok_shape _ _ _ _ Hok)
    as (et & b & c & dims & Hin & -> & Hne & Hb & Hc & Hwr & Hsr & Hd & Hw & Hf & Hs).
  assert (Hsz : size_t_vector (b :: c :: dims)).
  { rewrite get_inputs_single in Hin. unfold size_t_node in Hnode.
    rewrite Forall_lookup in Hnode. exact (Hnode 0%nat _ Hin). }
  apply Forall_cons in Hsz as [_ Hsz]. apply Forall_cons in Hsz as [_ Hsz].
  assert (Hwpos : Forall (fun w => 0 < w) window_shape) by (now apply size_t_nonzero_pos).
  assert (Hspos : Forall (fun s => 0 < s) strides) by (now apply size_t_nonzero_pos).
  unfold constructed.
  cbn [get_shape m_input_image_shape m_output_image_shape m_window_movement_strides
       m_image_dimension_count].
  change (image_dims (b :: c :: dims)) with dims. rewrite length_sub_2.
  repeat split; try assumption.
  now apply output_image_shape_of_exact.
Qed.

(** X3: on a successful construction from [size_t] values the subtraction
    [input_dim - window_dim + 1] never wraps around: on every spatial axis
    [1 <= w <= d] and [1 <= s], the stored output dimension is
    [ceil_div (d - w + 1) s] over the integers, and it lies between 1 and the
    input dimension (with [ceil_div] as the glossary defines it). *)
Theorem MaxPool_ctor_no_wrap
    (arg : Node) (window_shape : Shape) (strides : Strides) (mp : MaxPool)
    (i : nat) (d w s : Z) :
  size_t_node arg -> size_t_vector window_shape -> size_t_vector strides ->
  MaxPool_ctor arg window_shape strides = Ok mp ->
  m_input_image_shape mp !! i = Some d ->
  window_shape !! i = Some w ->
  strides !! i = Some s ->
  1 <= w <= d /\ 1 <= s /\
  size_t_add (size_t_sub d w) 1 = d - w + 1 /\
  m_output_image_shape mp !! i = Some (ceil_div (d - w + 1) s) /\
  1 <= ceil_div (d - w + 1) s <= d.
Proof.
  intros Hnode Hwsz Hssz Hok Hd Hw Hs.
  destruct (MaxPool_ctor_Ok_axes _ _ _ _ Hnode Hwsz Hssz Hok)
    as (Hdsz & Hwpos & Hspos & Hf & _ & _ & Hout).
  unfold size_t_vector in Hdsz. rewrite Forall_lookup in Hdsz, Hwpos, Hspos.
  pose proof (Hdsz i d Hd) as Hd1. pose proof (Hwpos i w Hw) as Hw1.
  pose proof (Hspos i s Hs) as Hs1. simpl in Hw1, Hs1.
  assert (Hwd : w <= d).
  { rewrite Forall2_lookup in Hf. specialize (Hf i). rewrite Hw, Hd in Hf.
    now inversion Hf. }
  unfold is_size_t in Hd1.
  split; [lia|]. split; [lia|]. split.
  - unfold size_t_add, size_t_sub, wrap.
    rewrite (Z.mod_small (d - w)) by lia. now rewrite Z.mod_small by lia.
  - split.
    + rewrite Hout. now apply lookup_output_dims.
    + split; [apply ceil_div_ge_1; lia|].
      transitivity (d - w + 1); [apply ceil_div_le; lia|lia].
Qed.

Lemma MaxPool_ctor_no_wrap_witness :
  1 <= 3 <= 10 /\ 1 <= 2 /\
  size_t_add (size_t_sub 10 3) 1 = 10 - 3 + 1 /\
  m_output_image_shape
    (constructed (mkNode 23 [mkOutput "float" [2; 3; 10; 9]])
                 (mkOutput "float" [2; 3; 10; 9]) [3; 2] [2; 4]) !! 0%nat
  = Some (ceil_div (10 - 3 + 1) 2) /\
  1 <= ceil_div (10 - 3 + 1) 2 <= 10.
Proof.
  apply (MaxPool_ctor_no_wrap
           (mkNode 23 [mkOutput "float" [2; 3; 10; 9]]) [3; 2] [2; 4]
           (constructed (mkNode 23 [mkOutput "float" [2; 3; 10; 9]])
                        (mkOutput "float" [2; 3; 10; 9]) [3; 2] [2; 4])
           0%nat 10 3 2).
  - repeat constructor; unfold is_size_t, size_t_modulus; simpl; lia.
  - solve_size_t.
  - solve_size_t.
  - reflexivity.
  - reflexivity.
  - reflexivity.
  - reflexivity.
Defined.

(** * Further properties of the default-stride path *)

Lemma message_stride_rank_inv (inv : invariant) :
  message inv = msg_stride_rank -> inv = Inv_stride_rank.
Proof. destruct inv; intros H; try reflexivity; cbv in H; discriminate H. Qed.

Lemma message_stride_inv (inv : invariant) :
  message inv = msg_stride -> inv = Inv_stride.
Proof. destruct inv; intros H; try reflexivity; cbv in H; discriminate H. Qed.

Lemma existsb_zero_replicate_1 (n : nat) :
  existsb (fun s => s =? 0) (replicate n 1) = false.
Proof. induction n as [|n IH]; simpl; [reflexivity|exact IH]. Qed.

(** X4: [default_strides] returns, for a node with exactly one output of rank
    at least 3, one stride of 1 per spatial axis; it throws the output-count
    error for any other output count, and for a single output of rank below 3
    the rank error, which is the very error the three-argument constructor
    throws for that node. *)
Theorem default_strides_spec (arg : Node) :
  (forall strides,
      default_strides arg = Ok strides <->
      exists o, get_outputs arg = [o] /\ (3 <= length (get_shape o))%nat /\
                strides = replicate (length (get_shape o) - 2) 1)
  /\
  (forall e,
      default_strides arg = Throw e ->
      (e = ngraph_error msg_one_output /\ length (get_outputs arg) <> 1%nat) \/
      (e = ngraph_error msg_rank /\
       exists o, get_outputs arg = [o] /\ (length (get_shape o) < 3)%nat /\
                 forall window_shape strides,
                   MaxPool_ctor arg window_shape strides = Throw e)).
Proof.
  unfold default_strides, vector_at.
  destruct (get_outputs arg) as [|o [|o' l]] eqn:Hout; cbn [length Nat.eqb negb].
  - split.
    + intros strides. split; [discriminate|]. intros (o & Ho & _). discriminate Ho.
    + intros e He. left. split; [congruence|simpl; lia].
  - cbn [lookup list_lookup bind].
    destruct (Nat.ltb_spec (length (get_shape o)) 3) as [Hlt|Hge].
    + split.
      * intros strides. split; [discriminate|].
        intros (o1 & Ho & Hrank & _). injection Ho as <-. lia.
      * intros e He. right. injection He as <-. split; [reflexivity|].
        exists o. split; [reflexivity|]. split; [exact Hlt|].
        intros window_shape strides.
        assert (Hin : get_inputs [arg] !! 0%nat = Some o)
          by (now rewrite get_inputs_single, Hout).
        rewrite (MaxPool_ctor_find arg o _ _ Hin).
        unfold validation_order, List.find. cbn [violated].
        apply Nat.ltb_lt in Hlt. now rewrite Hlt.
    + split.
      * intros strides. split.
        -- intros H. injection H as <-. exists o. repeat split. exact Hge.
        -- intros (o1 & Ho & _ & ->). injection Ho as <-. reflexivity.
      * intros e He. discriminate He.
  - split.
    + intros strides. split; [discriminate|]. intros (o1 & Ho & _). discriminate Ho.
    + intros e He. left. split; [congruence|simpl; lia].
Qed.

Lemma default_strides_spec_witness :
  default_strides (mkNode 24 [mkOutput "float" [2; 3; 10; 9]]) = Ok [1; 1].
Proof.
  apply (proj1 (default_strides_spec (mkNode 24 [mkOutput "float" [2; 3; 10; 9]]))).
  exists (mkOutput "float" [2; 3; 10; 9]). repeat split. simpl; lia.
Defined.

(** X5: the two-argument constructor never throws [std::out_of_range] (the
    output count is checked before [at(0)]), and never the stride-rank or the
    zero-stride error: the strides it supplies always pass those checks. *)
Theorem MaxPool_ctor_default_never (arg : Node) (window_shape : Shape) :
  MaxPool_ctor_default arg window_shape <> Throw out_of_range /\
  MaxPool_ctor_default arg window_shape <> Throw (ngraph_error msg_stride_rank) /\
  MaxPool_ctor_default arg window_shape <> Throw (ngraph_error msg_stride).
Proof.
  destruct (Nat.eq_dec (length (get_outputs arg)) 1%nat) as [Hone|Hne].
  - rewrite (MaxPool_ctor_default_one_output arg window_shape Hone).
    destruct (one_output arg Hone) as [o Ho].
    assert (Hin : get_inputs [arg] !! 0%nat = Some o)
      by (now rewrite get_inputs_single, Ho).
    assert (Hcount : spatial_axis_count arg = length (image_dims (get_shape o)))
      by (unfold spatial_axis_count; now rewrite Hin).
    split; [|split]; intros Hthrow.
    + rewrite (MaxPool_ctor_find arg o _ _ Hin) in Hthrow.
      destruct (List.find _ validation_order); discriminate Hthrow.
    + destruct (MaxPool_ctor_throws_message _ _ _ _ _ Hin Hthrow) as (inv & Hinv & Hm).
      symmetry in Hm. apply message_stride_rank_inv in Hm. subst inv.
      cbn [violated] in Hinv.
      rewrite length_replicate, Hcount, Nat.eqb_refl in Hinv. discriminate Hinv.
    + destruct (MaxPool_ctor_throws_message _ _ _ _ _ Hin Hthrow) as (inv & Hinv & Hm).
      symmetry in Hm. apply message_stride_inv in Hm. subst inv.
      cbn [violated] in Hinv. rewrite existsb_zero_replicate_1 in Hinv. discriminate Hinv.
  - unfold MaxPool_ctor_default, default_strides.
    apply Nat.eqb_neq in Hne. rewrite Hne. cbn [negb bind].
    split; [|split]; intros H; cbv in H; discriminate H.
Qed.

(** X6: a node built by the two-argument constructor from [size_t] values
    stores a stride of 1 per spatial axis, and on every spatial axis its output
    dimension is [input_dim - window_dim + 1] (with [ceil_div] as the glossary
    defines it). *)
Theorem MaxPool_ctor_default_output_dims
    (arg : Node) (window_shape : Shape) (mp : MaxPool) (i : nat) (d w : Z) :
  size_t_node arg -> size_t_vector window_shape ->
  MaxPool_ctor_default arg window_shape = Ok mp ->
  m_input_image_shape mp !! i = Some d ->
  window_shape !! i = Some w ->
  m_window_movement_strides mp = replicate (m_image_dimension_count mp) 1 /\
  m_output_image_shape mp !! i = Some (d - w + 1).
Proof.
  intros Hnode Hwsz Hok Hd Hw.
  apply MaxPool_ctor_default_Ok_inv in Hok as [_ Hok].
  assert (Hssz : size_t_vector (replicate (spatial_axis_count arg) 1))
    by (apply Forall_replicate; unfold is_size_t, size_t_modulus; lia).
  destruct (MaxPool_ctor_Ok_axes _ _ _ _ Hnode Hwsz Hssz Hok)
    as (_ & _ & _ & Hf & Hst & Hlen & Hout).
  rewrite length_replicate in Hlen. split; [now rewrite Hst, Hlen|].
  assert (Hlt : (i < spatial_axis_count arg)%nat).
  { apply lookup_lt_Some in Hw.
    destruct (MaxPool_ctor_Ok_fields _ _ _ _ Hok)
      as (_ & _ & _ & _ & _ & _ & Hwl & _).
    lia. }
  rewrite Hout.
  rewrite (lookup_output_dims _ _ _ i d w 1 Hd Hw (lookup_replicate_2 _ _ _ Hlt)).
  unfold ceil_div. now rewrite Z.add_simpl_r, Z.div_1_r.
Qed.

Lemma MaxPool_ctor_default_output_dims_witness :
  m_window_movement_strides
    (constructed (mkNode 25 [mkOutput "float" [2; 3; 10]]) (mkOutput "float" [2; 3; 10]) [3] [1])
  = replicate
      (m_image_dimension_count
         (constructed (mkNode 25 [mkOutput "float" [2; 3; 10]])
                      (mkOutput "float" [2; 3; 10]) [3] [1])) 1 /\
  m_output_image_shape
    (constructed (mkNode 25 [mkOutput "float" [2; 3; 10]]) (mkOutput "float" [2; 3; 10]) [3] [1])
    !! 0%nat
  = Some (10 - 3 + 1).
Proof.
  apply (MaxPool_ctor_default_output_dims
           (mkNode 25 [mkOutput "float" [2; 3; 10]]) [3]
           (constructed (mkNode 25 [mkOutput "float" [2; 3; 10]])
                        (mkOutput "float" [2; 3; 10]) [3] [1])
           0%nat 10 3).
  - repeat constructor; unfold is_size_t, size_t_modulus; simpl; lia.
  - solve_size_t.
  - reflexivity.
  - reflexivity.
  - reflexivity.
Defined.

Lemma MaxPool_ctor_default_never_witness :
  MaxPool_ctor_default (mkNode 26 []) [2; 2] <> Throw out_of_range /\
  MaxPool_ctor_default (mkNode 26 []) [2; 2] <> Throw (ngraph_error msg_stride_rank) /\
  MaxPool_ctor_default (mkNode 26 []) [2; 2] <> Throw (ngraph_error msg_stride).
Proof. exact (MaxPool_ctor_default_never (mkNode 26 []) [2; 2]). Defined.

(** * Further properties of the adjoint construction *)

(** [generate_adjoints] as one case distinction on the six reads it makes. *)
Lemma generate_adjoints_cases (this : MaxPool) (delta : Node) (s : State) :
  generate_adjoints this delta s =
    match get_outputs delta !! 0%nat, arguments this !! 0%nat,
          m_window_movement_strides this !! 0%nat, m_window_movement_strides this !! 1%nat,
          m_window_shape this !! 0%nat, m_window_shape this !! 1%nat with
    | Some od, Some operand, Some s0, Some s1, Some w0, Some w1 =>
        Ok (tt, mkState (10 + fresh s)
                  (adjoints s ++
                     [(Existing operand,
                       adjoint_node (fresh s) (get_element_type od) operand delta
                                    w0 w1 s0 s1)]))
    | _, _, _, _, _, _ => Throw out_of_range
    end.
Proof.
  destruct (get_outputs delta !! 0%nat) as [od|] eqn:Hd.
  2:{ unfold generate_adjoints, bindM, lift, node_element_type, vector_at, bind.
      now rewrite Hd. }
  destruct (arguments this !! 0%nat) as [operand|] eqn:Ha.
  2:{ unfold generate_adjoints, bindM, lift, make_shared, node_element_type,
        get_input_op, vector_at, bind.
      rewrite Hd. cbn [fresh adjoints]. now rewrite Ha. }
  destruct (m_window_movement_strides this !! 0%nat) as [s0|] eqn:Hs0.
  2:{ unfold generate_adjoints, bindM, lift, make_shared, node_element_type,
        get_input_op, vector_at, bind.
      rewrite Hd. cbn [fresh adjoints]. rewrite Ha. cbn [fresh adjoints]. now rewrite Hs0. }
  destruct (m_window_movement_strides this !! 1%nat) as [s1|] eqn:Hs1.
  2:{ unfold generate_adjoints, bindM, lift, make_shared, node_element_type,
        get_input_op, vector_at, bind.
      rewrite Hd. cbn [fresh adjoints]. rewrite Ha. cbn [fresh adjoints].
      rewrite Hs0. cbn [fresh adjoints]. now rewrite Hs1. }
  destruct (m_window_shape this !! 0%nat) as [w0|] eqn:Hw0.
  2:{ unfold generate_adjoints, bindM, lift, make_shared, node_element_type,
        get_input_op, vector_at, bind.
      rewrite Hd. cbn [fresh adjoints]. rewrite Ha. cbn [fresh adjoints].
      rewrite Hs0. cbn [fresh adjoints]. rewrite Hs1. cbn [fresh adjoints].
      now rewrite Hw0. }
  destruct (m_window_shape this !! 1%nat) as [w1|] eqn:Hw1.
  2:{ unfold generate_adjoints, bindM, lift, make_shared, node_element_type,
        get_input_op, vector_at, bind.
      rewrite Hd. cbn [fresh adjoints]. rewrite Ha. cbn [fresh adjoints].
      rewrite Hs0. cbn [fresh adjoints]. rewrite Hs1. cbn [fresh adjoints].
      rewrite Hw0. cbn [fresh adjoints]. now rewrite Hw1. }
  now apply (generate_adjoints_run this delta s od operand w0 w1 s0 s1).
Qed.

(** * Further properties of functional identity *)

Lemma test_identical_sym (this other : MaxPool) :
  test_identical this other = test_identical other this.
Proof.
  unfold test_identical. rewrite String.eqb_sym. f_equal.
  apply bool_decide_ext. split; intros H; now symmetry.
Qed.

(** X8: [is_functionally_identical] is symmetric and transitive (with
    [Node::test_identical] comparing operator kind and input identities). *)
Theorem is_functionally_identical_equivalence :
  (forall this other : MaxPool,
      is_functionally_identical this other = is_functionally_identical other this)
  /\
  (forall a b c : MaxPool,
      is_functionally_identical a b = true ->
      is_functionally_identical b c = true ->
      is_functionally_identical a c = true).
Proof.
  split.
  - intros this other. apply eq_true_iff_eq.
    rewrite !is_functionally_identical_iff, (test_identical_sym this other).
    split; intros (H0 & H1 & H2 & H3 & H4 & H5 & H6 & H7); repeat split; congruence.
  - intros a b c Hab Hbc.
    apply is_functionally_identical_iff in Hab, Hbc.
    destruct Hab as (Ht & H1 & H2 & H3 & H4 & H5 & H6 & H7).
    destruct Hbc as (Ht' & H1' & H2' & H3' & H4' & H5' & H6' & H7').
    apply is_functionally_identical_iff. repeat split; try congruence.
    unfold test_identical in *. apply andb_true_iff in Ht as [Hd Hi].
    apply andb_true_iff in Ht' as [Hd' Hi'].
    apply String.eqb_eq in Hd, Hd'. apply bool_decide_eq_true in Hi, Hi'.
    apply andb_true_iff. split.
    + apply String.eqb_eq. congruence.
    + apply bool_decide_eq_true. congruence.
Qed.

Lemma is_functionally_identical_equivalence_witness :
  is_functionally_identical
    (constructed (mkNode 28 [mkOutput "float" [1; 1; 4; 4]])
                 (mkOutput "float" [1; 1; 4; 4]) [2; 2] [2; 2])
    (constructed (mkNode 28 [mkOutput "float" [1; 1; 4; 4]])
                 (mkOutput "float" [1; 1; 4; 4]) [2; 2] [2; 2])
  = true.
Proof.
  apply (proj2 is_functionally_identical_equivalence
           (constructed (mkNode 28 [mkOutput "float" [1; 1; 4; 4]])
                        (mkOutput "float" [1; 1; 4; 4]) [2; 2] [2; 2])
           (constructed (mkNode 28 [mkOutput "float" [1; 1; 4; 4]])
                        (mkOutput "float" [1; 1; 4; 4]) [2; 2] [2; 2])
           (constructed (mkNode 28 [mkOutput "float" [1; 1; 4; 4]])
                        (mkOutput "float" [1; 1; 4; 4]) [2; 2] [2; 2])).
  - reflexivity.
  - reflexivity.
Defined.

(** X9: two nodes that the constructor built are functionally identical
    exactly when the node-level identity check passes and they were built with
    equal input shapes, equal window shapes and equal strides: the comparisons
    of the derived fields add nothing beyond that. *)
Theorem is_functionally_identical_constructed
    (arg arg' : Node) (window_shape window_shape' : Shape) (strides strides' : Strides)
    (mp mp' : MaxPool) :
  MaxPool_ctor arg window_shape strides = Ok mp ->
  MaxPool_ctor arg' window_shape' strides' = Ok mp' ->
  is_functionally_identical mp mp' = true <->
  test_identical mp mp' = true /\
  window_shape = window_shape' /\
  strides = strides' /\
  get_shape <$> (get_inputs [arg] !! 0%nat) = get_shape <$> (get_inputs [arg'] !! 0%nat).
Proof.
  intros Hok Hok'.
  destruct (MaxPool_ctor_Ok_shape _ _ _ _ Hok)
    as (et & b & c & dims & Hin & -> & _).
  destruct (MaxPool_ctor_Ok_shape _ _ _ _ Hok')
    as (et' & b' & c' & dims' & Hin' & -> & _).
  rewrite Hin, Hin'. cbn [fmap option_fmap option_map get_shape].
  rewrite is_functionally_identical_iff.
  set (t := test_identical _ _).
  unfold constructed.
  cbn [m_window_shape m_window_movement_strides m_channel_count
       m_input_image_shape m_output_image_shape m_batch_size m_image_dimension_count
       get_shape get_element_type].
  change (image_dims (b :: c :: dims)) with dims.
  change (image_dims (b' :: c' :: dims')) with dims'.
  change (subscript (b :: c :: dims) 0) with b.
  change (subscript (b :: c :: dims) 1) with c.
  change (subscript (b' :: c' :: dims') 0) with b'.
  change (subscript (b' :: c' :: dims') 1) with c'.
  split.
  - intros (Ht & Hw & Hs & Hc & Hd & _ & Hb & _).
    repeat split; try assumption. congruence.
  - intros (Ht & -> & -> & Hshape). injection Hshape as -> -> ->.
    repeat split. exact Ht.
Qed.

Lemma is_functionally_identical_constructed_witness :
  is_functionally_identical
    (constructed (mkNode 29 [mkOutput "float" [1; 1; 4; 4]])
                 (mkOutput "float" [1; 1; 4; 4]) [2; 2] [2; 1])
    (constructed (mkNode 29 [mkOutput "float" [1; 1; 4; 4]])
                 (mkOutput "float" [1; 1; 4; 4]) [2; 2] [2; 1])
  = true <->
  test_identical
    (constructed (mkNode 29 [mkOutput "float" [1; 1; 4; 4]])
                 (mkOutput "float" [1; 1; 4; 4]) [2; 2] [2; 1])
    (constructed (mkNode 29 [mkOutput "float" [1; 1; 4; 4]])
                 (mkOutput "float" [1; 1; 4; 4]) [2; 2] [2; 1])
  = true /\
  [2; 2] = [2; 2] /\
  [2; 1] = [2; 1] /\
  get_shape <$> (get_inputs [mkNode 29 [mkOutput "float" [1; 1; 4; 4]]] !! 0%nat)
  = get_shape <$> (get_inputs [mkNode 29 [mkOutput "float" [1; 1; 4; 4]]] !! 0%nat).
Proof.
  apply (is_functionally_identical_constructed
           (mkNode 29 [mkOutput "float" [1; 1; 4; 4]])
           (mkNode 29 [mkOutput "float" [1; 1; 4; 4]])
           [2; 2] [2; 2] [2; 1] [2; 1]).
  - reflexivity.
  - reflexivity.
Defined.

(** * The constructors and the adjoint construction together *)

(** X11: for a node built by the two-argument constructor with at least two
    spatial axes, [generate_adjoints] gives the select-and-scatter node the
    strides [1, 1, 1, 1] and the window shape [1, 1, w0, w1]. *)
Theorem generate_adjoints_default_strides
    (arg : Node) (window_shape : Shape) (mp : MaxPool)
    (delta : Node) (od : Output) (s : State) :
  MaxPool_ctor_default arg window_shape = Ok mp ->
  (2 <= m_image_dimension_count mp)%nat ->
  get_outputs delta !! 0%nat = Some od ->
  exists w0 w1 sel_f scatter_f init_value id,
    window_shape !! 0%nat = Some w0 /\ window_shape !! 1%nat = Some w1 /\
    generate_adjoints mp delta s
    = Ok (tt, mkState (10 + fresh s)
                (adjoints s ++
                   [(Existing arg,
                     op_SelectAndScatter id (Existing arg) (Existing delta) init_value
                       sel_f scatter_f [1; 1; w0; w1] [1; 1; 1; 1])])).
Proof.
  intros Hok Hcount Hd.
  apply MaxPool_ctor_default_Ok_inv in Hok as [_ Hok].
  destruct (MaxPool_ctor_Ok_fields _ _ _ _ Hok)
    as (input0 & _ & Hargs & Hws & Hst & _ & Hwlen & Hslen & _).
  rewrite length_replicate in Hslen.
  destruct window_shape as [|w0 [|w1 ws]]; simpl in Hwlen; try lia.
  assert (Hs0 : m_window_movement_strides mp !! 0%nat = Some 1)
    by (rewrite Hst; apply lookup_replicate_2; lia).
  assert (Hs1 : m_window_movement_strides mp !! 1%nat = Some 1)
    by (rewrite Hst; apply lookup_replicate_2; lia).
  exists w0, w1. do 4 eexists. split; [reflexivity|]. split; [reflexivity|].
  rewrite (generate_adjoints_run mp delta s od arg w0 w1 1 1 Hd).
  - unfold adjoint_node. reflexivity.
  - now rewrite Hargs.
  - exact Hs0.
  - exact Hs1.
  - now rewrite Hws.
  - now rewrite Hws.
Qed.

Lemma generate_adjoints_default_strides_witness :
  exists w0 w1 sel_f scatter_f init_value id,
    [2; 3] !! 0%nat = Some w0 /\ [2; 3] !! 1%nat = Some w1 /\
    generate_adjoints
      (constructed (mkNode 32 [mkOutput "float" [1; 1; 6; 6]])
                   (mkOutput "float" [1; 1; 6; 6]) [2; 3] [1; 1])
      (mkNode 33 [mkOutput "float" [1; 1; 5; 4]]) (mkState 0 [])
    = Ok (tt, mkState (10 + fresh (mkState 0 []))
                (adjoints (mkState 0 []) ++
                   [(Existing (mkNode 32 [mkOutput "float" [1; 1; 6; 6]]),
                     op_SelectAndScatter id
                       (Existing (mkNode 32 [mkOutput "float" [1; 1; 6; 6]]))
                       (Existing (mkNode 33 [mkOutput "float" [1; 1; 5; 4]])) init_value
                       sel_f scatter_f [1; 1; w0; w1] [1; 1; 1; 1])])).
Proof.
  apply (generate_adjoints_default_strides
           (mkNode 32 [mkOutput "float" [1; 1; 6; 6]]) [2; 3]
           (constructed (mkNode 32 [mkOutput "float" [1; 1; 6; 6]])
                        (mkOutput "float" [1; 1; 6; 6]) [2; 3] [1; 1])
           (mkNode 33 [mkOutput "float" [1; 1; 5; 4]]) (mkOutput "float" [1; 1; 5; 4])
           (mkState 0 [])).
  - reflexivity.
  - simpl; lia.
  - reflexivity.
Defined.

(** X12: whenever [generate_adjoints] completes on a constructed node, the
    select-and-scatter node it registers gets a window shape and strides of
    rank 4, whatever the number of spatial axes; that is the rank of the
    operand exactly when the node has two spatial axes. *)
Theorem generate_adjoints_window_rank
    (arg : Node) (window_shape : Shape) (strides : Strides) (mp : MaxPool)
    (delta : Node) (s s' : State) (u : unit) :
  MaxPool_ctor arg window_shape strides = Ok mp ->
  generate_adjoints mp delta s = Ok (u, s') ->
  exists id source init_value sel_f scatter_f w st input0,
    last (adjoints s')
    = Some (Existing arg,
            op_SelectAndScatter id (Existing arg) source init_value sel_f scatter_f w st) /\
    length w = 4%nat /\ length st = 4%nat /\
    get_inputs [arg] !! 0%nat = Some input0 /\
    (length (get_shape input0) = length w <-> m_image_dimension_count mp = 2%nat).
Proof.
  intros Hok Hrun.
  destruct (MaxPool_ctor_Ok_fields _ _ _ _ Hok)
    as (input0 & Hin & Hargs & _ & _ & _ & _ & _ & Hrank).
  rewrite generate_adjoints_cases, Hargs in Hrun. cbn [lookup list_lookup] in Hrun.
  destruct (get_outputs delta !! 0%nat) as [od|]; [|discriminate Hrun].
  destruct (m_window_movement_strides mp !! 0%nat) as [s0|]; [|discriminate Hrun].
  destruct (m_window_movement_strides mp !! 1%nat) as [s1|]; [|discriminate Hrun].
  destruct (m_window_shape mp !! 0%nat) as [w0|]; [|discriminate Hrun].
  destruct (m_window_shape mp !! 1%nat) as [w1|]; [|discriminate Hrun].
  injection Hrun as _ <-. cbn [adjoints]. unfold adjoint_node.
  do 7 eexists. exists input0.
  split; [apply last_snoc|]. split; [reflexivity|]. split; [reflexivity|].
  split; [exact Hin|]. rewrite Hrank. cbn [length]. lia.
Qed.

Lemma generate_adjoints_window_rank_witness :
  exists id source init_value sel_f scatter_f w st input0,
    last (adjoints
            (mkState 110
               [(Existing (mkNode 11 [mkOutput "float" [1; 1; 6; 6; 6]]),
                 adjoint_node 100 "float" (mkNode 11 [mkOutput "float" [1; 1; 6; 6; 6]])
                   (mkNode 12 [mkOutput "float" [1; 1; 2; 1; 6]]) 2 3 4 5)]))
    = Some (Existing (mkNode 11 [mkOutput "float" [1; 1; 6; 6; 6]]),
            op_SelectAndScatter id (Existing (mkNode 11 [mkOutput "float" [1; 1; 6; 6; 6]]))
              source init_value sel_f scatter_f w st) /\
    length w = 4%nat /\ length st = 4%nat /\
    get_inputs [mkNode 11 [mkOutput "float" [1; 1; 6; 6; 6]]] !! 0%nat = Some input0 /\
    (length (get_shape input0) = length w <->
     m_image_dimension_count
       (constructed (mkNode 11 [mkOutput "float" [1; 1; 6; 6; 6]])
                    (mkOutput "float" [1; 1; 6; 6; 6]) [2; 3; 1] [4; 5; 1]) = 2%nat).
Proof.
  apply (generate_adjoints_window_rank
           (mkNode 11 [mkOutput "float" [1; 1; 6; 6; 6]]) [2; 3; 1] [4; 5; 1]
           (constructed (mkNode 11 [mkOutput "float" [1; 1; 6; 6; 6]])
                        (mkOutput "float" [1; 1; 6; 6; 6]) [2; 3; 1] [4; 5; 1])
           (mkNode 12 [mkOutput "float" [1; 1; 2; 1; 6]]) (mkState 100 []) _ tt).
  - reflexivity.
  - reflexivity.
Defined.
